(** * Resilient propagation (RPROP) weight-update strategies of encog-js

    A shallow embedding of [ResilientPropagation] (the class exported by the
    resilient-propagation module whose text sits in
    [src/src/utils/dataToolbox.js], lines 178-549) and the properties of its
    [updateWeight] family.

    Numbers.  JavaScript numbers are binary64 floats.  The embedding takes them
    as exact rationals ([Q]): every comparison, product, [Math.min] and
    [Math.max] of the source is the rational one, and rounding, NaN, signed
    zeros and the infinities are left out.  The single infinite value the
    source writes down, [Number.POSITIVE_INFINITY] for [lastError], has a
    constructor of its own.  Where the source would continue on [undefined],
    NaN or an infinity (an index outside an array, a division by zero) the
    model stops with the completion [Unrepresented].

    State.  [updateWeight] mutates the strategy object ([this]), writes into
    the [lastGradient] array it is handed by its caller, and (in the ARPROP
    branch) reads and writes a free identifier [q].  All three live in one
    store, [World], threaded through a small state-and-exception monad. *)

From Stdlib Require Import QArith Qminmax Qabs Lqa Lia String Bool.
From stdpp Require Import base list.

Open Scope Q_scope.

(** ** Numbers and comparisons *)

(** [x > y] on JavaScript numbers. *)
Definition js_gt (x y : Q) : bool := negb (Qle_bool x y).

(** [x < y]. *)
Definition js_lt (x y : Q) : bool := js_gt y x.

(** [x == y] on numbers. *)
Definition js_eq (x y : Q) : bool := Qeq_bool x y.

(** The value of [lastError]: [Number.POSITIVE_INFINITY] or a finite error. *)
Inductive errorValue : Type :=
| POSITIVE_INFINITY
| Finite (e : Q).

(** [this.error > this.lastError]. *)
Definition error_gt (e : Q) (le : errorValue) : bool :=
  match le with
  | POSITIVE_INFINITY => false
  | Finite l => js_gt e l
  end.

(** ** Constants of the module (lines 186-191) *)

Definition DEFAULT_ZERO_TOLERANCE : Q := 0.00000000000000001.
Definition POSITIVE_ETA : Q := 1.2.
Definition NEGATIVE_ETA : Q := 0.5.
Definition DELTA_MIN : Q := 1e-6.
Definition DEFAULT_INITIAL_UPDATE : Q := 0.1.
Definition DEFAULT_MAX_STEP : Q := 50.

(** [RPROPType] (lines 192-218): the tags are JavaScript strings. *)
Module RPROPType.
Definition RPROPp : string := "RPROPp".
Definition RPROPm : string := "RPROPm".
Definition iRPROPp : string := "iRPROPp".
Definition iRPROPm : string := "iRPROPm".
Definition ARPROP : string := "ARPROP".
End RPROPType.

(** ** The store *)

(** The fields of a [ResilientPropagation] object.  [error] is inherited from
    [Propagation], whose iteration writes the batch error into it. *)
Record ResilientPropagation : Type := mkResilientPropagation {
  updateValues : list Q;
  lastDelta : list Q;
  lastWeightChange : list Q;
  zeroTolerance : Q;
  maxStep : Q;
  rpropType : string;
  error : Q;
  lastError : errorValue;
  q : Q
}.

(** What a call can touch: the object, the caller's [lastGradient] array
    (passed by reference and written by the callee), and the binding of the
    free identifier [q] of [updateJacobiWeight]: [None] when no variable [q]
    is in scope, [Some v] when the global scope supplies one. *)
Record World : Type := mkWorld {
  this : ResilientPropagation;
  lastGradient : list Q;
  scope_q : option Q
}.

Definition with_updateValues (l : list Q) (o : ResilientPropagation) :=
  mkResilientPropagation l (lastDelta o) (lastWeightChange o)
    (zeroTolerance o) (maxStep o) (rpropType o) (error o) (lastError o) (q o).

Definition with_lastDelta (l : list Q) (o : ResilientPropagation) :=
  mkResilientPropagation (updateValues o) l (lastWeightChange o)
    (zeroTolerance o) (maxStep o) (rpropType o) (error o) (lastError o) (q o).

Definition with_lastWeightChange (l : list Q) (o : ResilientPropagation) :=
  mkResilientPropagation (updateValues o) (lastDelta o) l
    (zeroTolerance o) (maxStep o) (rpropType o) (error o) (lastError o) (q o).

Definition with_rpropType (t : string) (o : ResilientPropagation) :=
  mkResilientPropagation (updateValues o) (lastDelta o) (lastWeightChange o)
    (zeroTolerance o) (maxStep o) t (error o) (lastError o) (q o).

Definition with_error (e : Q) (o : ResilientPropagation) :=
  mkResilientPropagation (updateValues o) (lastDelta o) (lastWeightChange o)
    (zeroTolerance o) (maxStep o) (rpropType o) e (lastError o) (q o).

Definition with_lastError (e : errorValue) (o : ResilientPropagation) :=
  mkResilientPropagation (updateValues o) (lastDelta o) (lastWeightChange o)
    (zeroTolerance o) (maxStep o) (rpropType o) (error o) e (q o).

(** ** Completions and the monad *)

Inductive JsError : Type :=
| NeuralNetworkError (message : string)
| ReferenceError (identifier : string).

(** How a call ends: it returns, it throws, or it leaves the rational model
    (the source goes on with [undefined], NaN or an infinity). *)
Inductive completion (A : Type) : Type :=
| Normal (a : A)
| Throw (e : JsError)
| Unrepresented.

Arguments Normal {A} a.
Arguments Throw {A} e.
Arguments Unrepresented {A}.

(** A computation runs on a store and hands back the store as it left it:
    assignments made before a [throw] stay made. *)
Definition Js (A : Type) : Type := World -> completion A * World.

Definition ret {A} (a : A) : Js A := fun w => (Normal a, w).

Definition bind {A B} (m : Js A) (k : A -> Js B) : Js B :=
  fun w =>
    match m w with
    | (Normal a, w') => k a w'
    | (Throw e, w') => (Throw e, w')
    | (Unrepresented, w') => (Unrepresented, w')
    end.

Definition throw {A} (e : JsError) : Js A := fun w => (Throw e, w).

Definition unrepresented {A} : Js A := fun w => (Unrepresented, w).

Declare Scope js_scope.
Delimit Scope js_scope with js.
Notation "'let*' x := m 'in' k" := (bind m (fun x => k))
  (at level 10, x name, m at level 100, k at level 200) : js_scope.
Open Scope js_scope.

(** Reading a field of [this]. *)
Definition field {A} (f : ResilientPropagation -> A) : Js A :=
  fun w => (Normal (f (this w)), w).

(** [a[index]] for a read: inside the array its element; outside,
    [undefined]. *)
Definition element (a : list Q) (index : nat) : Js Q :=
  match a !! index with
  | Some v => ret v
  | None => unrepresented
  end.

(** [a[index] = v]: inside the array the element is replaced.  Outside, what
    happens depends on the array class [ArrayUtils.newFloatArray] builds
    (a typed array drops the write, a plain one grows with holes); the model
    stops there. *)
Definition assign (a : list Q) (index : nat) (v : Q) : option (list Q) :=
  if decide (index < length a)%nat then Some (<[index := v]> a) else None.

Definition this_updateValues (index : nat) : Js Q :=
  fun w => element (updateValues (this w)) index w.

Definition this_lastDelta (index : nat) : Js Q :=
  fun w => element (lastDelta (this w)) index w.

Definition this_lastWeightChange (index : nat) : Js Q :=
  fun w => element (lastWeightChange (this w)) index w.

Definition lastGradient_at (index : nat) : Js Q :=
  fun w => element (lastGradient w) index w.

Definition set_updateValues (index : nat) (v : Q) : Js unit :=
  fun w =>
    match assign (updateValues (this w)) index v with
    | Some l => (Normal tt, mkWorld (with_updateValues l (this w)) (lastGradient w) (scope_q w))
    | None => (Unrepresented, w)
    end.

Definition set_lastDelta (index : nat) (v : Q) : Js unit :=
  fun w =>
    match assign (lastDelta (this w)) index v with
    | Some l => (Normal tt, mkWorld (with_lastDelta l (this w)) (lastGradient w) (scope_q w))
    | None => (Unrepresented, w)
    end.

Definition set_lastWeightChange (index : nat) (v : Q) : Js unit :=
  fun w =>
    match assign (lastWeightChange (this w)) index v with
    | Some l => (Normal tt, mkWorld (with_lastWeightChange l (this w)) (lastGradient w) (scope_q w))
    | None => (Unrepresented, w)
    end.

Definition set_lastGradient (index : nat) (v : Q) : Js unit :=
  fun w =>
    match assign (lastGradient w) index v with
    | Some l => (Normal tt, mkWorld (this w) l (scope_q w))
    | None => (Unrepresented, w)
    end.

(** Reading the free identifier [q]: a [ReferenceError] when nothing binds
    it. *)
Definition read_q : Js Q :=
  fun w =>
    match scope_q w with
    | Some v => (Normal v, w)
    | None => (Throw (ReferenceError "q"), w)
    end.

(** Assigning to the free identifier [q].  Class bodies are strict-mode code,
    so assigning to an identifier nothing binds is a [ReferenceError] too. *)
Definition write_q (v : Q) : Js unit :=
  fun w =>
    match scope_q w with
    | Some _ => (Normal tt, mkWorld (this w) (lastGradient w) (Some v))
    | None => (Throw (ReferenceError "q"), w)
    end.

(** ** [EncogMath.sign] *)

(** Modelled from the spec: [EncogMath.sign], which is required from the
    module encogMath and is not in the sources.  The spec writes
    [change = sign(gradient[i] * lastGradient[i])] with the three outcomes
    [change > 0], [change < 0] and [change == 0] ("first iteration or exact
    zero product"), and lists a zero tolerance among the parameters.  The
    model is the three-valued sign with a tolerance band: a value whose
    magnitude is below [tolerance] counts as zero.  [tolerance = 0] is the
    exact sign; every result below holds for whatever tolerance the helper
    uses, two of them under the assumption that it does not exceed
    [DELTA_MIN]. *)
Definition sign (tolerance x : Q) : Q :=
  if js_lt (Qabs x) tolerance then 0
  else if js_gt x 0 then 1
  else if js_lt x 0 then -1
  else 0.

Section Strategy.

(** The tolerance of [EncogMath.sign]. *)
Variable tolerance : Q.

(** ** The five update rules *)

(** [updateWeightPlus] (lines 345-378), RPROP+. *)
Definition updateWeightPlus (gradients : list Q) (index : nat) : Js Q :=
  let* g := element gradients index in
  let* lg := lastGradient_at index in
  let change := sign tolerance (g * lg) in
  if js_gt change 0 then
    let* uv := this_updateValues index in
    let* ms := field maxStep in
    let delta := Qmin (uv * POSITIVE_ETA) ms in
    let weightChange := sign tolerance g * delta in
    (let* _ := set_updateValues index delta in
     let* _ := set_lastGradient index g in
     ret weightChange)
  else if js_lt change 0 then
    let* uv := this_updateValues index in
    let delta := Qmax (uv * NEGATIVE_ETA) DELTA_MIN in
    (let* _ := set_updateValues index delta in
     let* lwc := this_lastWeightChange index in
     let weightChange := - lwc in
     (let* _ := set_lastGradient index 0 in
      ret weightChange))
  else if js_eq change 0 then
    let* delta := this_updateValues index in
    let weightChange := sign tolerance g * delta in
    (let* _ := set_lastGradient index g in
     ret weightChange)
  else ret 0.

(** [updateWeightMinus] (lines 386-411), RPROP-. *)
Definition updateWeightMinus (gradients : list Q) (index : nat) : Js Q :=
  let* g := element gradients index in
  let* lg := lastGradient_at index in
  let change := sign tolerance (g * lg) in
  let* delta :=
    (if js_gt change 0 then
       let* ld := this_lastDelta index in
       let* ms := field maxStep in
       ret (Qmin (ld * POSITIVE_ETA) ms)
     else
       let* ld := this_lastDelta index in
       ret (Qmax (ld * NEGATIVE_ETA) DELTA_MIN)) in
  let* _ := set_lastGradient index g in
  let weightChange := sign tolerance g * delta in
  (let* _ := set_lastDelta index delta in
   ret weightChange).

(** [updateiWeightPlus] (lines 419-457), iRPROP+. *)
Definition updateiWeightPlus (gradients : list Q) (index : nat) : Js Q :=
  let* g := element gradients index in
  let* lg := lastGradient_at index in
  let change := sign tolerance (g * lg) in
  if js_gt change 0 then
    let* uv := this_updateValues index in
    let* ms := field maxStep in
    let delta := Qmin (uv * POSITIVE_ETA) ms in
    let weightChange := sign tolerance g * delta in
    (let* _ := set_updateValues index delta in
     let* _ := set_lastGradient index g in
     ret weightChange)
  else if js_lt change 0 then
    let* uv := this_updateValues index in
    let delta := Qmax (uv * NEGATIVE_ETA) DELTA_MIN in
    (let* _ := set_updateValues index delta in
     let* e := field error in
     let* le := field lastError in
     let* weightChange :=
       (if error_gt e le then
          let* lwc := this_lastWeightChange index in
          ret (- lwc)
        else ret 0) in
     let* _ := set_lastGradient index 0 in
     ret weightChange)
  else if js_eq change 0 then
    let* delta := this_updateValues index in
    let weightChange := sign tolerance g * delta in
    (let* _ := set_lastGradient index g in
     ret weightChange)
  else ret 0.

(** [updateiWeightMinus] (lines 465-491), iRPROP-.  The assignment of [0] in
    the reversal branch (line 482) is followed by the unconditional
    assignment of the gradient (line 485). *)
Definition updateiWeightMinus (gradients : list Q) (index : nat) : Js Q :=
  let* g := element gradients index in
  let* lg := lastGradient_at index in
  let change := sign tolerance (g * lg) in
  let* delta :=
    (if js_gt change 0 then
       let* ld := this_lastDelta index in
       let* ms := field maxStep in
       ret (Qmin (ld * POSITIVE_ETA) ms)
     else
       let* ld := this_lastDelta index in
       let delta := Qmax (ld * NEGATIVE_ETA) DELTA_MIN in
       (let* _ := set_lastGradient index 0 in
        ret delta)) in
  let* _ := set_lastGradient index g in
  let weightChange := sign tolerance g * delta in
  (let* _ := set_lastDelta index delta in
   ret weightChange).

(** [updateJacobiWeight] (lines 499-539), ARPROP.  Lines 531-534 name [q],
    not [this.q]: the identifier is resolved in the enclosing scopes.
    [1 / (2 * q)] is an infinity when [q] is zero. *)
Definition updateJacobiWeight (gradients : list Q) (index : nat) : Js Q :=
  let* g := element gradients index in
  let* lg := lastGradient_at index in
  let change := sign tolerance (g * lg) in
  let* delta0 := this_updateValues index in
  let* r :=
    (if js_gt change 0 then
       let* uv := this_updateValues index in
       let* ms := field maxStep in
       let delta := Qmin (uv * POSITIVE_ETA) ms in
       let weightChange := sign tolerance g * delta in
       (let* _ := set_updateValues index delta in
        let* _ := set_lastGradient index g in
        ret (weightChange, delta))
     else if js_lt change 0 then
       let* uv := this_updateValues index in
       let delta := Qmax (uv * NEGATIVE_ETA) DELTA_MIN in
       (let* _ := set_updateValues index delta in
        let* lwc := this_lastWeightChange index in
        let weightChange := - lwc in
        (let* _ := set_lastGradient index 0 in
         ret (weightChange, delta)))
     else if js_eq change 0 then
       let* delta := this_updateValues index in
       let weightChange := sign tolerance g * delta in
       (let* _ := set_lastGradient index g in
        ret (weightChange, delta))
     else ret (0, delta0)) in
  let weightChange := fst r in
  let delta := snd r in
  let* e := field error in
  let* le := field lastError in
  if error_gt e le then
    let* qv := read_q in
    if js_eq (2 * qv) 0 then unrepresented
    else
      let weightChange := (1 / (2 * qv)) * delta in
      (let* qv' := read_q in
       let* _ := write_q (qv' + 1) in
       ret weightChange)
  else
    (let* _ := write_q 1 in
     ret weightChange).

(** ** [updateWeight] (lines 309-337) *)

Definition updateWeight (gradients : list Q) (index : nat) (dropoutRate : Q)
  : Js Q :=
  if js_gt dropoutRate 0 then ret 0
  else
    let* ty := field rpropType in
    let* weightChange :=
      (if String.eqb ty RPROPType.RPROPp then updateWeightPlus gradients index
       else if String.eqb ty RPROPType.RPROPm then updateWeightMinus gradients index
       else if String.eqb ty RPROPType.iRPROPp then updateiWeightPlus gradients index
       else if String.eqb ty RPROPType.iRPROPm then updateiWeightMinus gradients index
       else if String.eqb ty RPROPType.ARPROP then updateJacobiWeight gradients index
       else throw (NeuralNetworkError ("Unknown RPROP type: " ++ ty))) in
    let* _ := set_lastWeightChange index weightChange in
    ret weightChange.

(** [postIteration] (lines 544-547): the line of this class; the inherited
    hook is not in the sources. *)
Definition postIteration : Js unit :=
  fun w =>
    (Normal tt,
     mkWorld (with_lastError (Finite (error (this w))) (this w))
       (lastGradient w) (scope_q w)).

End Strategy.

(** ** Construction (lines 279-304) *)

(** Modelled from the spec: [ArrayUtils.newFloatArray], which is not in the
    sources: a numeric buffer of the given length, filled with zeros. *)
Definition newFloatArray (length : nat) : list Q := replicate length 0.

(** The constructor.  [weights] stands for
    [this.currentFlatNetwork.weights.length] and [error0] for the value the
    inherited constructor leaves in [error]; the loop of lines 289-292
    overwrites every entry of [updateValues] and [lastDelta].  There is no
    parameter for the variant: [rpropType] is always [RPROPp] here. *)
Definition constructor (weights : nat) (error0 : Q) (initialUpdate maxStep : Q)
  : ResilientPropagation :=
  {| updateValues := replicate (length (newFloatArray weights)) initialUpdate;
     lastDelta := replicate (length (newFloatArray weights)) 0;
     lastWeightChange := newFloatArray weights;
     zeroTolerance := DEFAULT_ZERO_TOLERANCE;
     maxStep := maxStep;
     rpropType := RPROPType.RPROPp;
     error := error0;
     lastError := POSITIVE_INFINITY;
     q := 1 |}.

(** ** A training run as seen by the strategy *)

(** Modelled from the spec: the [Propagation] base class is not in the
    sources.  By the spec it owns the previous-gradient vector, of the
    weight vector's length, and hands it to every [updateWeight] call; the
    first comparison of an index is the neutral one ("first iteration"), so
    the vector starts at zero.  [variant] is the tag assigned to [rpropType]
    after construction, [scope] the binding of the free identifier [q]. *)
Definition start (variant : string) (weights : nat) (error0 : Q)
    (initialUpdate maxStep : Q) (scope : option Q) : World :=
  {| this := with_rpropType variant (constructor weights error0 initialUpdate maxStep);
     lastGradient := newFloatArray weights;
     scope_q := scope |}.

(** What happens to the strategy during training: the iteration stores the
    batch error, calls [updateWeight] for indices of its choosing, and runs
    the post-iteration hook. *)
Inductive event : Type :=
| StoreError (e : Q)
| UpdateWeight (gradients : list Q) (index : nat) (dropoutRate : Q)
| PostIteration.

Definition step (tolerance : Q) (w : World) (ev : event) : World :=
  match ev with
  | StoreError e => mkWorld (with_error e (this w)) (lastGradient w) (scope_q w)
  | UpdateWeight gradients index dropoutRate =>
      snd (updateWeight tolerance gradients index dropoutRate w)
  | PostIteration => snd (postIteration w)
  end.

Definition run (tolerance : Q) (w : World) (evs : list event) : World :=
  fold_left (step tolerance) evs w.

(** ** Descriptions used by the proofs *)

(** The store [w] with its four arrays and the binding of [q] replaced. *)
Definition updated (w : World) (uvs lds lwcs lgs : list Q) (scope : option Q)
  : World :=
  mkWorld
    (mkResilientPropagation uvs lds lwcs (zeroTolerance (this w))
       (maxStep (this w)) (rpropType (this w)) (error (this w))
       (lastError (this w)) (q (this w)))
    lgs scope.

(** The entries of index [index] before a call. *)
Record entries (gradients : list Q) (index : nat) (w : World)
    (g lg uv ld lwc : Q) : Prop := mkEntries {
  entry_gradient : gradients !! index = Some g;
  entry_lastGradient : lastGradient w !! index = Some lg;
  entry_updateValue : updateValues (this w) !! index = Some uv;
  entry_lastDelta : lastDelta (this w) !! index = Some ld;
  entry_lastWeightChange : lastWeightChange (this w) !! index = Some lwc
}.

(** Weight change, new update value and new last gradient of RPROP+. *)
Definition plus_rule (tolerance ms g lg uv lwc : Q) : Q * Q * Q :=
  let change := sign tolerance (g * lg) in
  if js_gt change 0 then
    (sign tolerance g * Qmin (uv * POSITIVE_ETA) ms, Qmin (uv * POSITIVE_ETA) ms, g)
  else if js_lt change 0 then
    (- lwc, Qmax (uv * NEGATIVE_ETA) DELTA_MIN, 0)
  else (sign tolerance g * uv, uv, g).

(** Weight change and new last delta of RPROP- and iRPROP-. *)
Definition minus_rule (tolerance ms g lg ld : Q) : Q * Q :=
  let change := sign tolerance (g * lg) in
  let delta :=
    if js_gt change 0 then Qmin (ld * POSITIVE_ETA) ms
    else Qmax (ld * NEGATIVE_ETA) DELTA_MIN in
  (sign tolerance g * delta, delta).

(** Weight change, new update value and new last gradient of iRPROP+. *)
Definition iplus_rule (tolerance ms g lg uv lwc e : Q) (le : errorValue)
  : Q * Q * Q :=
  let change := sign tolerance (g * lg) in
  if js_gt change 0 then
    (sign tolerance g * Qmin (uv * POSITIVE_ETA) ms, Qmin (uv * POSITIVE_ETA) ms, g)
  else if js_lt change 0 then
    (if error_gt e le then - lwc else 0, Qmax (uv * NEGATIVE_ETA) DELTA_MIN, 0)
  else (sign tolerance g * uv, uv, g).

(** The second half of ARPROP (lines 530-535) on the result of the first. *)
Definition jacobi_finish (w1 : World) (wc delta : Q)
  : completion Q * World :=
  match scope_q w1 with
  | None => (Throw (ReferenceError "q"), w1)
  | Some qv =>
      if error_gt (error (this w1)) (lastError (this w1)) then
        if js_eq (2 * qv) 0 then (Unrepresented, w1)
        else (Normal ((1 / (2 * qv)) * delta),
              mkWorld (this w1) (lastGradient w1) (Some (qv + 1)))
      else (Normal wc, mkWorld (this w1) (lastGradient w1) (Some 1))
  end.

Definition recognized (ty : string) : bool :=
  String.eqb ty RPROPType.RPROPp || String.eqb ty RPROPType.RPROPm
  || String.eqb ty RPROPType.iRPROPp || String.eqb ty RPROPType.iRPROPm
  || String.eqb ty RPROPType.ARPROP.

(** [updateWeight] on ARPROP: the result of [updateJacobiWeight], with the
    weight change recorded when the call returns. *)
Definition record_change (index : nat) (r : completion Q * World)
  : completion Q * World :=
  match r with
  | (Normal wc, w1) =>
      (Normal wc,
       updated w1 (updateValues (this w1)) (lastDelta (this w1))
         (<[index := wc]> (lastWeightChange (this w1))) (lastGradient w1)
         (scope_q w1))
  | other => other
  end.

(** ** The iteration around [updateWeight] *)

(** Modelled from the spec: steps 2 and 3 of the iteration protocol of
    [Propagation], which is not in the sources, for one index: call
    [updateWeight], then [weight[index] += weightChange].  A call that does
    not return leaves the weights alone. *)
Definition learnWeight (tolerance : Q) (gradients : list Q) (index : nat)
    (dropoutRate : Q) (weights : list Q) (w : World) : list Q * World :=
  match updateWeight tolerance gradients index dropoutRate w with
  | (Normal weightChange, w') =>
      (alter (fun x => x + weightChange) index weights, w')
  | (_, w') => (weights, w')
  end.

(** ** Vocabulary of the statements *)

(** [this.error > this.lastError] as a proposition. *)
Definition exceeds (e : Q) (le : errorValue) : Prop :=
  match le with
  | POSITIVE_INFINITY => False
  | Finite l => l < e
  end.

(** A step size within [[DELTA_MIN, maxStep]]. *)
Definition in_bounds (ms x : Q) : Prop := DELTA_MIN <= x /\ x <= ms.

(** The variants whose step size is [lastDelta]. *)
Definition minus_variant (ty : string) : bool :=
  String.eqb ty RPROPType.RPROPm || String.eqb ty RPROPType.iRPROPm.

(** The event is a call that reaches the update rule for index [i]: no
    dropout, and a gradient at that index. *)
Definition updates (i : nat) (ev : event) : bool :=
  match ev with
  | UpdateWeight gradients index dropoutRate =>
      Nat.eqb index i && negb (js_gt dropoutRate 0)
      && bool_decide (is_Some (gradients !! index))
  | _ => false
  end.

(** Some event of the history updated index [i]. *)
Definition touched (i : nat) (evs : list event) : bool :=
  existsb (updates i) evs.

(** What no operation of the class changes: the scalar fields of [this] and
    the lengths of the four arrays. *)
Record frame (w w' : World) : Prop := mkFrame {
  frame_zeroTolerance : zeroTolerance (this w') = zeroTolerance (this w);
  frame_maxStep : maxStep (this w') = maxStep (this w);
  frame_rpropType : rpropType (this w') = rpropType (this w);
  frame_error : error (this w') = error (this w);
  frame_lastError : lastError (this w') = lastError (this w);
  frame_q : q (this w') = q (this w);
  frame_updateValues : length (updateValues (this w')) = length (updateValues (this w));
  frame_lastDelta : length (lastDelta (this w')) = length (lastDelta (this w));
  frame_lastWeightChange :
    length (lastWeightChange (this w')) = length (lastWeightChange (this w));
  frame_lastGradient : length (lastGradient w') = length (lastGradient w)
}.

(** A computation that stays within the frame, however it ends. *)
Definition keeps_frame {A} (m : Js A) : Prop :=
  forall w, frame w (snd (m w)).

(** The condition of a strategy of tag [ty] on [n] weights with maximum step
    [ms] after the events [evs]: the arrays keep their length, every update
    value is within bounds, and for the minus variants a last delta is
    within bounds once its index has been updated and is the constructor's
    [0], next to a zero previous gradient, until then. *)
Record invariant (n : nat) (ms : Q) (ty : string) (evs : list event)
    (w : World) : Prop := mkInvariant {
  inv_maxStep : maxStep (this w) = ms;
  inv_rpropType : rpropType (this w) = ty;
  inv_updateValues_length : length (updateValues (this w)) = n;
  inv_lastDelta_length : length (lastDelta (this w)) = n;
  inv_lastWeightChange_length : length (lastWeightChange (this w)) = n;
  inv_lastGradient_length : length (lastGradient w) = n;
  inv_updateValues :
    forall (i : nat) (uv : Q),
      updateValues (this w) !! i = Some uv -> in_bounds ms uv;
  inv_lastDelta :
    minus_variant ty = true ->
    forall (i : nat) (ld : Q),
      lastDelta (this w) !! i = Some ld ->
      if touched i evs then in_bounds ms ld
      else ld = 0 /\ lastGradient w !! i = Some 0
}.

(** ** Stores used as examples *)

(** An RPROP- strategy on one weight, built with the defaults, after two
    iterations with gradient [1]. *)
Definition rpropm_after_two_steps : World :=
  run DEFAULT_ZERO_TOLERANCE
    (start RPROPType.RPROPm 1 0 DEFAULT_INITIAL_UPDATE DEFAULT_MAX_STEP None)
    [UpdateWeight [1] 0 0; UpdateWeight [1] 0 0].

(** An RPROP- strategy on two weights, built with the defaults, after one
    call for index [0]. *)
Definition rpropm_after_one_call : World :=
  run DEFAULT_ZERO_TOLERANCE
    (start RPROPType.RPROPm 2 0 DEFAULT_INITIAL_UPDATE DEFAULT_MAX_STEP None)
    [UpdateWeight [1; 1] 0 0].

(** The store [w] with [updateValues] replaced. *)
Definition swap_updateValues (uvs : list Q) (w : World) : World :=
  mkWorld (with_updateValues uvs (this w)) (lastGradient w) (scope_q w).

(** A computation that neither reads nor writes [updateValues]: run on a
    store with another [updateValues] it ends the same way and leaves the
    same store, up to that array. *)
Definition ignores_updateValues {A} (m : Js A) : Prop :=
  forall (uvs : list Q) (w : World),
    m (swap_updateValues uvs w)
    = (fst (m w), swap_updateValues uvs (snd (m w))).

(** An RPROP- strategy on one weight, built with the defaults, after one
    call for index [0] with a dropout rate of [0.5]. *)
Definition rpropm_after_dropout : World :=
  run DEFAULT_ZERO_TOLERANCE
    (start RPROPType.RPROPm 1 0 DEFAULT_INITIAL_UPDATE DEFAULT_MAX_STEP None)
    [UpdateWeight [1] 0 0.5].

(** An ARPROP strategy on one weight, built with the defaults, at the point
    of an iteration where the batch error ([0.3]) exceeds the previous one
    ([0.2]); [scope] is the binding of the free identifier [q]. *)
Definition arprop_error_grew (scope : option Q) : World :=
  run DEFAULT_ZERO_TOLERANCE
    (start RPROPType.ARPROP 1 0 DEFAULT_INITIAL_UPDATE DEFAULT_MAX_STEP scope)
    [StoreError 0.2; PostIteration; StoreError 0.3].

(** The store [w] with another binding of the free identifier [q]. *)
Definition swap_scope (scope : option Q) (w : World) : World :=
  mkWorld (this w) (lastGradient w) scope.

(** A computation that neither reads nor writes the free identifier [q]. *)
Definition ignores_scope {A} (m : Js A) : Prop :=
  forall (scope : option Q) (w : World),
    m (swap_scope scope w) = (fst (m w), swap_scope scope (snd (m w))).

(** The [switch] of [updateWeight] on a tag read from [this]. *)
Definition switch (tolerance : Q) (ty : string) (gradients : list Q)
    (index : nat) : Js Q :=
  if String.eqb ty RPROPType.RPROPp then updateWeightPlus tolerance gradients index
  else if String.eqb ty RPROPType.RPROPm then updateWeightMinus tolerance gradients index
  else if String.eqb ty RPROPType.iRPROPp then updateiWeightPlus tolerance gradients index
  else if String.eqb ty RPROPType.iRPROPm then updateiWeightMinus tolerance gradients index
  else if String.eqb ty RPROPType.ARPROP then updateJacobiWeight tolerance gradients index
  else throw (NeuralNetworkError ("Unknown RPROP type: " ++ ty)).

From Stdlib Require Import Qpower Qround.

(** ** Further vocabulary for [ResilientPropagation] *)

(** The four arrays of [w'] hold at every index but [index] what they hold
    in [w]. *)
Record same_elsewhere (index : nat) (w w' : World) : Prop := mkSameElsewhere {
  elsewhere_updateValues :
    forall j : nat, j <> index ->
      updateValues (this w') !! j = updateValues (this w) !! j;
  elsewhere_lastDelta :
    forall j : nat, j <> index ->
      lastDelta (this w') !! j = lastDelta (this w) !! j;
  elsewhere_lastWeightChange :
    forall j : nat, j <> index ->
      lastWeightChange (this w') !! j = lastWeightChange (this w) !! j;
  elsewhere_lastGradient :
    forall j : nat, j <> index -> lastGradient w' !! j = lastGradient w !! j
}.

(** A computation that writes the arrays at [index] only. *)
Definition writes_only_at {A} (index : nat) (m : Js A) : Prop :=
  forall w, same_elsewhere index w (snd (m w)).

(** The store [w] with the [zeroTolerance] field replaced. *)
Definition swap_zeroTolerance (zt : Q) (w : World) : World :=
  mkWorld
    (mkResilientPropagation (updateValues (this w)) (lastDelta (this w))
       (lastWeightChange (this w)) zt (maxStep (this w)) (rpropType (this w))
       (error (this w)) (lastError (this w)) (q (this w)))
    (lastGradient w) (scope_q w).

(** A computation that neither reads nor writes [this.zeroTolerance]. *)
Definition ignores_zeroTolerance {A} (m : Js A) : Prop :=
  forall (zt : Q) (w : World),
    m (swap_zeroTolerance zt w)
    = (fst (m w), swap_zeroTolerance zt (snd (m w))).

(** * [DataToolbox] (src/src/utils/dataToolbox.js, lines 8-176)

    Datasets are arrays of rows and rows are arrays of numbers.  As above,
    numbers are exact rationals; the bounds [calcMinMaxValues] keeps can also
    be the two infinities it starts from. *)

Module DataToolbox.

(** ** Outcomes *)

(** What a toolbox function can throw: an error class of the library, or
    the [TypeError] of reading a property of [undefined]. *)
Inductive Exception : Type :=
| Raised (e : JsError)
| TypeError.

(** How a call ends: it returns, it throws, or it goes on with NaN, which the
    rationals do not have. *)
Inductive outcome (A : Type) : Type :=
| Returns (a : A)
| Throws (e : Exception)
| Unmodelled.

Arguments Returns {A} a.
Arguments Throws {A} e.
Arguments Unmodelled {A}.

(** [x >= y] and [x <= y] on numbers. *)
Definition js_ge (x y : Q) : bool := Qle_bool y x.

Definition js_le (x y : Q) : bool := Qle_bool x y.

(** ** [Array.prototype.slice] *)

(** [ToIntegerOrInfinity] on a finite number: truncation toward zero. *)
Definition ToIntegerOrInfinity (x : Q) : Z :=
  if js_lt x 0 then Qceiling x else Qfloor x.

(** A relative index of [slice]: counted from the end when negative, and
    clamped to the array. *)
Definition relative_index (len k : Z) : Z :=
  if (k <? 0)%Z then Z.max (len + k) 0 else Z.min k len.

(** [a.slice(start, end)]; [end_ = None] is the call with one argument. *)
Definition slice {A} (a : list A) (start : Q) (end_ : option Q) : list A :=
  let len := Z.of_nat (length a) in
  let k := relative_index len (ToIntegerOrInfinity start) in
  let final :=
    match end_ with
    | Some e => relative_index len (ToIntegerOrInfinity e)
    | None => len
    end in
  take (Z.to_nat (Z.max (final - k) 0)) (drop (Z.to_nat k) a).

(** ** [trainTestSpit] (lines 18-28) *)

(** The object [{train: ..., test: ...}]. *)
Record Split (A : Type) : Type := mkSplit {
  train : list A;
  test : list A
}.

Arguments mkSplit {A} train test.
Arguments train {A} s.
Arguments test {A} s.

Definition trainTestSpit {A} (dataset : list A) (testSize : Q)
  : outcome (Split A) :=
  if js_ge testSize 1 || js_le testSize 0 then
    Throws (Raised (NeuralNetworkError "Test size should be between 0 and 1"))
  else
    Returns
      {| train :=
           slice dataset 0
             (Some (inject_Z (Z.of_nat (length dataset)) * (1 - testSize)));
         test :=
           slice dataset (- inject_Z (Z.of_nat (length dataset)) * testSize)
             None |}.

(** ** [calcMinMaxValues] (lines 94-113) *)

(** A bound: a number or one of the infinities. *)
Inductive number : Type :=
| NEGATIVE_INFINITY
| Number (x : Q)
| POSITIVE_INFINITY.

(** [Math.max] and [Math.min]. *)
Definition Math_max (a b : number) : number :=
  match a, b with
  | POSITIVE_INFINITY, _ => POSITIVE_INFINITY
  | _, POSITIVE_INFINITY => POSITIVE_INFINITY
  | NEGATIVE_INFINITY, y => y
  | x, NEGATIVE_INFINITY => x
  | Number x, Number y => Number (Qmax x y)
  end.

Definition Math_min (a b : number) : number :=
  match a, b with
  | NEGATIVE_INFINITY, _ => NEGATIVE_INFINITY
  | _, NEGATIVE_INFINITY => NEGATIVE_INFINITY
  | POSITIVE_INFINITY, y => y
  | x, POSITIVE_INFINITY => x
  | Number x, Number y => Number (Qmin x y)
  end.

(** An entry [{max: ..., min: ...}] of the result. *)
Record MinMax : Type := mkMinMax {
  max : number;
  min : number
}.

(** [_.chunk(array, size)] of lodash: consecutive pieces of [size] elements,
    the last one possibly shorter; nothing for a size below one. *)
Fixpoint chunk_pieces {A} (pieces : nat) (size : nat) (a : list A)
  : list (list A) :=
  match pieces with
  | O => []
  | S pieces' =>
      match a with
      | [] => []
      | _ => take size a :: chunk_pieces pieces' size (drop size a)
      end
  end.

Definition chunk {A} (a : list A) (size : nat) : list (list A) :=
  match size with
  | O => []
  | _ => chunk_pieces (length a) size a
  end.

(** The innermost [_.each] (lines 105-108) from position [index] of a row:
    both bounds of entry [index] are updated; an entry that does not exist
    is [undefined], and reading its [max] throws. *)
Fixpoint each_value (minMaxValuesObj : list MinMax) (index : nat)
    (dataRow : list Q) : outcome (list MinMax) :=
  match dataRow with
  | [] => Returns minMaxValuesObj
  | value :: rest =>
      match minMaxValuesObj !! index with
      | None => Throws TypeError
      | Some entry =>
          each_value
            (<[index := {| max := Math_max (max entry) (Number value);
                           min := Math_min (min entry) (Number value) |}]>
               minMaxValuesObj)
            (S index) rest
      end
  end.

(** The [_.each] over the rows of a chunk (lines 104-109). *)
Fixpoint each_row (minMaxValuesObj : list MinMax) (chunkData : list (list Q))
  : outcome (list MinMax) :=
  match chunkData with
  | [] => Returns minMaxValuesObj
  | dataRow :: rest =>
      match each_value minMaxValuesObj 0 dataRow with
      | Returns obj => each_row obj rest
      | other => other
      end
  end.

(** The [_.each] over the chunks (lines 103-110). *)
Fixpoint each_chunk (minMaxValuesObj : list MinMax)
    (chunks : list (list (list Q))) : outcome (list MinMax) :=
  match chunks with
  | [] => Returns minMaxValuesObj
  | chunkData :: rest =>
      match each_row minMaxValuesObj chunkData with
      | Returns obj => each_chunk obj rest
      | other => other
      end
  end.

(** [calcMinMaxValues]: one entry per column of the first row, started at
    [{max: -Infinity, min: +Infinity}]; with no first row [values[0]] is
    [undefined] and the first [_.each] does nothing. *)
Definition calcMinMaxValues (values : list (list Q)) : outcome (list MinMax) :=
  let minMaxValuesObj :=
    match values with
    | [] => []
    | first :: _ =>
        map (fun _ => {| max := NEGATIVE_INFINITY; min := POSITIVE_INFINITY |})
          first
    end in
  each_chunk minMaxValuesObj (chunk values 10000).

(** ** [featureScaling] (lines 125-136) *)

(** [x >= y] on bounds. *)
Definition number_ge (x y : number) : bool :=
  match x, y with
  | POSITIVE_INFINITY, _ => true
  | _, NEGATIVE_INFINITY => true
  | NEGATIVE_INFINITY, _ => false
  | _, POSITIVE_INFINITY => false
  | Number a, Number b => js_ge a b
  end.

(** [_.round(number, precision)] of lodash: the precision is capped at 292,
    the number is shifted by that many decimal places, rounded with
    [Math.round] (to the nearest integer, halves upwards) and shifted
    back. *)
Definition round (x : Q) (precision : Z) : Q :=
  inject_Z (Qfloor (x * 10 ^ Z.min precision 292 + (1 # 2)))
  / 10 ^ Z.min precision 292.

(** [featureScaling]; [roundPrecision] stands for [CONSTANTS.roundPrecision],
    which is not in the sources.  [min] and [max] are bounds as
    [calcMinMaxValues] yields them; with an infinite one the quotient is NaN. *)
Definition featureScaling (roundPrecision : Z) (value : Q) (min max : number)
    (minRange maxRange : Q) : outcome Q :=
  if number_ge min max then
    Throws (Raised (NeuralNetworkError "Min value should be smaller than Max value"))
  else if js_ge minRange maxRange then
    Throws (Raised (NeuralNetworkError "Min range should be smaller than Max range"))
  else
    match min, max with
    | Number mn, Number mx =>
        let normValue :=
          minRange + (maxRange - minRange) * ((value - mn) / (mx - mn)) in
        Returns (round normValue roundPrecision)
    | _, _ => Unmodelled
    end.

(** ** [normalizeData] (lines 153-175) *)

(** The inner [_.each] (lines 159-171) from position [index] of a row: each
    cell is replaced by its scaled value; the row is given back as the loop
    left it.  [isNaN(value)] is false on every number of the model. *)
Fixpoint scale_row (roundPrecision : Z) (minMaxValues : list MinMax)
    (minRange maxRange : Q) (index : nat) (row : list Q)
  : outcome unit * list Q :=
  match row with
  | [] => (Returns tt, [])
  | value :: rest =>
      match minMaxValues !! index with
      | None => (Throws TypeError, row)
      | Some entry =>
          match featureScaling roundPrecision value (min entry) (max entry)
                  minRange maxRange with
          | Returns scaled =>
              let (o, rest') :=
                scale_row roundPrecision minMaxValues minRange maxRange
                  (S index) rest in
              (o, scaled :: rest')
          | Throws e => (Throws e, row)
          | Unmodelled => (Unmodelled, row)
          end
      end
  end.

(** The outer [_.each] (lines 157-172). *)
Fixpoint scale_rows (roundPrecision : Z) (minMaxValues : list MinMax)
    (minRange maxRange : Q) (values : list (list Q))
  : outcome unit * list (list Q) :=
  match values with
  | [] => (Returns tt, [])
  | row :: rest =>
      match scale_row roundPrecision minMaxValues minRange maxRange 0 row with
      | (Returns _, row') =>
          let (o, rest') :=
            scale_rows roundPrecision minMaxValues minRange maxRange rest in
          (o, row' :: rest')
      | (other, row') => (other, row' :: rest)
      end
  end.

(** [normalizeData]: the completion, and [values] as the call leaves it (the
    argument is written in place).  The array returned is [normalizedArr],
    to which nothing is ever added. *)
Definition normalizeData (roundPrecision : Z) (values : list (list Q))
    (minRange maxRange : Q) : outcome (list (list Q)) * list (list Q) :=
  match calcMinMaxValues values with
  | Returns minMaxValues =>
      match scale_rows roundPrecision minMaxValues minRange maxRange values with
      | (Returns _, values') => (Returns [], values')
      | (Throws e, values') => (Throws e, values')
      | (Unmodelled, values') => (Unmodelled, values')
      end
  | Throws e => (Throws e, values)
  | Unmodelled => (Unmodelled, values)
  end.

End DataToolbox.

(** ** Vocabulary for [calcMinMaxValues] *)

(** The entry every column starts from. *)
Definition unbounded : DataToolbox.MinMax :=
  {| DataToolbox.max := DataToolbox.NEGATIVE_INFINITY;
     DataToolbox.min := DataToolbox.POSITIVE_INFINITY |}.

(** An entry after one more value of its column. *)
Definition widen (entry : DataToolbox.MinMax) (value : Q) : DataToolbox.MinMax :=
  {| DataToolbox.max :=
       DataToolbox.Math_max (DataToolbox.max entry) (DataToolbox.Number value);
     DataToolbox.min :=
       DataToolbox.Math_min (DataToolbox.min entry) (DataToolbox.Number value) |}.

(** [mn] and [mx] bound column [j] of the rows and are values of it. *)
Definition column_bounds (rows : list (list Q)) (j : nat) (mn mx : Q) : Prop :=
  (forall (row : list Q) (v : Q),
     In row rows -> row !! j = Some v -> mn <= v /\ v <= mx) /\
  (exists row : list Q, In row rows /\ row !! j = Some mx) /\
  (exists row : list Q, In row rows /\ row !! j = Some mn).

(** The entry of column [j] after the rows [seen]: still the initial one when
    no row reaches column [j], the bounds of the column otherwise. *)
Definition entry_after (seen : list (list Q)) (j : nat)
    (entry : DataToolbox.MinMax) : Prop :=
  ((forall row : list Q, In row seen -> row !! j = None) /\
   entry = unbounded) \/
  (exists mn mx : Q,
     entry = {| DataToolbox.max := DataToolbox.Number mx;
                DataToolbox.min := DataToolbox.Number mn |} /\
     column_bounds seen j mn mx).

(** ** Vocabulary for [normalizeData] *)

(** What line 164 computes for the cell of column [index] holding [value]:
    the bounds of the column are read from [minMaxValues]. *)
Definition scaled_cell (roundPrecision : Z)
    (minMaxValues : list DataToolbox.MinMax) (minRange maxRange : Q)
    (index : nat) (value : Q) : DataToolbox.outcome Q :=
  match minMaxValues !! index with
  | None => DataToolbox.Throws DataToolbox.TypeError
  | Some entry =>
      DataToolbox.featureScaling roundPrecision value
        (DataToolbox.min entry) (DataToolbox.max entry) minRange maxRange
  end.

(** Column [j] of the rows holds two different values. *)
Definition varies (rows : list (list Q)) (j : nat) : Prop :=
  exists (r1 r2 : list Q) (v1 v2 : Q),
    In r1 rows /\ In r2 rows /\ r1 !! j = Some v1 /\ r2 !! j = Some v2 /\
    v1 < v2.

(** Every value of column [j] of the rows is the same number. *)
Definition constant (rows : list (list Q)) (j : nat) : Prop :=
  forall (r1 r2 : list Q) (v1 v2 : Q),
    In r1 rows -> In r2 rows -> r1 !! j = Some v1 -> r2 !! j = Some v2 ->
    v1 == v2.

(** The two messages of [featureScaling]. *)
Definition min_max_error : DataToolbox.Exception :=
  DataToolbox.Raised
    (NeuralNetworkError "Min value should be smaller than Max value").

Definition range_error : DataToolbox.Exception :=
  DataToolbox.Raised
    (NeuralNetworkError "Min range should be smaller than Max range").

(** * Properties *)

(** ** Comparisons and sign *)

Lemma js_gt_true (x y : Q) : js_gt x y = true <-> y < x.
Proof.
  unfold js_gt. rewrite negb_true_iff, <- not_true_iff_false, Qle_bool_iff.
  split; [apply Qnot_le_lt | apply Qlt_not_le].
Qed.

Lemma js_gt_false (x y : Q) : js_gt x y = false <-> x <= y.
Proof.
  unfold js_gt. rewrite negb_false_iff. apply Qle_bool_iff.
Qed.

Lemma js_lt_true (x y : Q) : js_lt x y = true <-> x < y.
Proof. apply js_gt_true. Qed.

Lemma js_lt_false (x y : Q) : js_lt x y = false <-> y <= x.
Proof. apply js_gt_false. Qed.

Lemma js_eq_true (x y : Q) : js_eq x y = true <-> x == y.
Proof. apply Qeq_bool_iff. Qed.

(** The three outcomes of [sign]. *)
Lemma sign_cases (tolerance x : Q) :
  (sign tolerance x = 1 /\ 0 < x /\ ~ Qabs x < tolerance) \/
  (sign tolerance x = -1 /\ x < 0 /\ ~ Qabs x < tolerance) \/
  (sign tolerance x = 0 /\ (Qabs x < tolerance \/ x == 0)).
Proof.
  unfold sign.
  destruct (js_lt (Qabs x) tolerance) eqn:Ht.
  - right; right. apply js_lt_true in Ht. auto.
  - apply js_lt_false in Ht.
    destruct (js_gt x 0) eqn:Hp.
    + left. apply js_gt_true in Hp. split; [reflexivity|]. split; [assumption|lra].
    + apply js_gt_false in Hp.
      destruct (js_lt x 0) eqn:Hn.
      * right; left. apply js_lt_true in Hn. split; [reflexivity|]. split; [assumption|lra].
      * right; right. apply js_lt_false in Hn. split; [reflexivity|]. right. lra.
Qed.

(** How the branches of the update rules see a [sign] result. *)
Lemma change_tests (tolerance x : Q) :
  let change := sign tolerance x in
  (change = 1 /\ 0 < x /\ js_gt change 0 = true) \/
  (change = -1 /\ x < 0 /\ js_gt change 0 = false /\ js_lt change 0 = true) \/
  (change = 0 /\ js_gt change 0 = false /\ js_lt change 0 = false
     /\ js_eq change 0 = true).
Proof.
  cbv zeta.
  destruct (sign_cases tolerance x) as [(-> & H & _)|[(-> & H & _)|(-> & _)]];
    [left|right; left|right; right]; repeat split; auto.
Qed.

(** ** Running the store operations *)

Lemma element_Some (a : list Q) (index : nat) (v : Q) (w : World) :
  a !! index = Some v -> element a index w = (Normal v, w).
Proof. intros H. unfold element. rewrite H. reflexivity. Qed.

Lemma element_None (a : list Q) (index : nat) (w : World) :
  a !! index = None -> element a index w = (Unrepresented, w).
Proof. intros H. unfold element. rewrite H. reflexivity. Qed.

Lemma assign_lt (a : list Q) (index : nat) (v : Q) :
  (index < length a)%nat -> assign a index v = Some (<[index := v]> a).
Proof. intros H. unfold assign. destruct (decide _); [reflexivity|contradiction]. Qed.

Lemma assign_length (a l : list Q) (index : nat) (v : Q) :
  assign a index v = Some l -> length l = length a.
Proof.
  unfold assign. destruct (decide _); [|discriminate].
  intros [= <-]. apply length_insert.
Qed.

(** Unfolds the monad and the store operations, leaving the arithmetic. *)
Ltac js_unfold :=
  unfold bind, ret, throw, unrepresented, field,
    this_updateValues, this_lastDelta, this_lastWeightChange, lastGradient_at,
    set_updateValues, set_lastDelta, set_lastWeightChange, set_lastGradient,
    read_q, write_q;
  cbn [fst snd this lastGradient scope_q
       updateValues lastDelta lastWeightChange zeroTolerance maxStep
       rpropType error lastError q
       with_updateValues with_lastDelta with_lastWeightChange with_rpropType
       with_error with_lastError].

(** ** Dropout *)

Lemma updateWeight_dropout_run (tolerance : Q) (gradients : list Q)
    (index : nat) (dropoutRate : Q) (w : World) :
  0 < dropoutRate ->
  updateWeight tolerance gradients index dropoutRate w = (Normal 0, w).
Proof.
  intros H. unfold updateWeight.
  apply js_gt_true in H. rewrite H. reflexivity.
Qed.

(** ** What an in-range call does, variant by variant *)

Ltac js_lookups H :=
  destruct H as [Hg Hlg Huv Hld Hlwc];
  pose proof (lookup_lt_Some _ _ _ Hlg) as Hlg_lt;
  pose proof (lookup_lt_Some _ _ _ Huv) as Huv_lt;
  pose proof (lookup_lt_Some _ _ _ Hld) as Hld_lt;
  pose proof (lookup_lt_Some _ _ _ Hlwc) as Hlwc_lt.

Ltac js_go :=
  js_unfold;
  repeat first
    [ progress js_unfold
    | erewrite element_Some by eassumption
    | rewrite assign_lt by (rewrite ?length_insert; assumption)
    | rewrite list_insert_insert_eq ].

Lemma updateWeightPlus_run (tolerance : Q) (gradients : list Q) (index : nat)
    (w : World) (g lg uv ld lwc : Q) :
  entries gradients index w g lg uv ld lwc ->
  updateWeightPlus tolerance gradients index w =
    let '(wc, delta, lg') := plus_rule tolerance (maxStep (this w)) g lg uv lwc in
    (Normal wc,
     updated w (<[index := delta]> (updateValues (this w))) (lastDelta (this w))
       (lastWeightChange (this w)) (<[index := lg']> (lastGradient w))
       (scope_q w)).
Proof.
  intros H. js_lookups H.
  unfold updateWeightPlus, plus_rule.
  js_go.
  destruct (change_tests tolerance (g * lg)) as
    [(_ & _ & ->)|[(_ & _ & -> & ->)|(_ & -> & -> & ->)]]; js_go.
  - reflexivity.
  - reflexivity.
  - rewrite (list_insert_id _ _ _ Huv). destruct w as [[] ? ?]; reflexivity.
Qed.

Lemma updateWeightMinus_run (tolerance : Q) (gradients : list Q) (index : nat)
    (w : World) (g lg uv ld lwc : Q) :
  entries gradients index w g lg uv ld lwc ->
  updateWeightMinus tolerance gradients index w =
    let '(wc, delta) := minus_rule tolerance (maxStep (this w)) g lg ld in
    (Normal wc,
     updated w (updateValues (this w)) (<[index := delta]> (lastDelta (this w)))
       (lastWeightChange (this w)) (<[index := g]> (lastGradient w))
       (scope_q w)).
Proof.
  intros H. js_lookups H.
  unfold updateWeightMinus, minus_rule.
  js_go.
  destruct (js_gt (sign tolerance (g * lg)) 0); js_go; reflexivity.
Qed.

Lemma updateiWeightPlus_run (tolerance : Q) (gradients : list Q) (index : nat)
    (w : World) (g lg uv ld lwc : Q) :
  entries gradients index w g lg uv ld lwc ->
  updateiWeightPlus tolerance gradients index w =
    let '(wc, delta, lg') :=
      iplus_rule tolerance (maxStep (this w)) g lg uv lwc
        (error (this w)) (lastError (this w)) in
    (Normal wc,
     updated w (<[index := delta]> (updateValues (this w))) (lastDelta (this w))
       (lastWeightChange (this w)) (<[index := lg']> (lastGradient w))
       (scope_q w)).
Proof.
  intros H. js_lookups H.
  unfold updateiWeightPlus, iplus_rule.
  js_go.
  destruct (change_tests tolerance (g * lg)) as
    [(_ & _ & ->)|[(_ & _ & -> & ->)|(_ & -> & -> & ->)]]; js_go.
  - reflexivity.
  - destruct (error_gt _ _); js_go; reflexivity.
  - rewrite (list_insert_id _ _ _ Huv). destruct w as [[] ? ?]; reflexivity.
Qed.

Lemma updateiWeightMinus_run (tolerance : Q) (gradients : list Q) (index : nat)
    (w : World) (g lg uv ld lwc : Q) :
  entries gradients index w g lg uv ld lwc ->
  updateiWeightMinus tolerance gradients index w =
    let '(wc, delta) := minus_rule tolerance (maxStep (this w)) g lg ld in
    (Normal wc,
     updated w (updateValues (this w)) (<[index := delta]> (lastDelta (this w)))
       (lastWeightChange (this w)) (<[index := g]> (lastGradient w))
       (scope_q w)).
Proof.
  intros H. js_lookups H.
  unfold updateiWeightMinus, minus_rule.
  js_go.
  destruct (js_gt (sign tolerance (g * lg)) 0); js_go; reflexivity.
Qed.

Lemma updateJacobiWeight_run (tolerance : Q) (gradients : list Q) (index : nat)
    (w : World) (g lg uv ld lwc : Q) :
  entries gradients index w g lg uv ld lwc ->
  updateJacobiWeight tolerance gradients index w =
    let '(wc, delta, lg') := plus_rule tolerance (maxStep (this w)) g lg uv lwc in
    jacobi_finish
      (updated w (<[index := delta]> (updateValues (this w))) (lastDelta (this w))
         (lastWeightChange (this w)) (<[index := lg']> (lastGradient w))
         (scope_q w))
      wc delta.
Proof.
  intros H. js_lookups H.
  unfold updateJacobiWeight, plus_rule, jacobi_finish.
  js_go.
  destruct (change_tests tolerance (g * lg)) as
    [(_ & _ & ->)|[(_ & _ & -> & ->)|(_ & -> & -> & ->)]]; js_go;
    unfold updated; js_go;
    destruct (error_gt _ _), (scope_q w) as [qv|]; js_go;
    try destruct (js_eq (2 * qv) 0); js_go; try reflexivity;
    rewrite (list_insert_id _ _ _ Huv); destruct w as [[] ? ?]; reflexivity.
Qed.

(** ** [updateWeight] on each tag *)

(** Enters [updateWeight] past the dropout test and the [switch]. *)
Ltac js_dispatch Hty Hd :=
  unfold updateWeight; rewrite Hd;
  unfold bind at 1; unfold field at 1; cbn [this rpropType]; rewrite Hty;
  unfold bind at 1;
  cbv [String.eqb Ascii.eqb Bool.eqb RPROPType.RPROPp RPROPType.RPROPm
       RPROPType.iRPROPp RPROPType.iRPROPm RPROPType.ARPROP].

Lemma updateWeight_RPROPp_run (tolerance : Q) (gradients : list Q)
    (index : nat) (dropoutRate : Q) (w : World) (g lg uv ld lwc : Q) :
  rpropType (this w) = RPROPType.RPROPp ->
  js_gt dropoutRate 0 = false ->
  entries gradients index w g lg uv ld lwc ->
  updateWeight tolerance gradients index dropoutRate w =
    let '(wc, delta, lg') := plus_rule tolerance (maxStep (this w)) g lg uv lwc in
    (Normal wc,
     updated w (<[index := delta]> (updateValues (this w))) (lastDelta (this w))
       (<[index := wc]> (lastWeightChange (this w)))
       (<[index := lg']> (lastGradient w)) (scope_q w)).
Proof.
  intros Hty Hd H. js_dispatch Hty Hd.
  rewrite (updateWeightPlus_run _ _ _ _ _ _ _ _ _ H).
  destruct (plus_rule _ _ _ _ _ _) as [[wc delta] lg'].
  js_lookups H. unfold updated. js_go. reflexivity.
Qed.

Lemma updateWeight_RPROPm_run (tolerance : Q) (gradients : list Q)
    (index : nat) (dropoutRate : Q) (w : World) (g lg uv ld lwc : Q) :
  rpropType (this w) = RPROPType.RPROPm ->
  js_gt dropoutRate 0 = false ->
  entries gradients index w g lg uv ld lwc ->
  updateWeight tolerance gradients index dropoutRate w =
    let '(wc, delta) := minus_rule tolerance (maxStep (this w)) g lg ld in
    (Normal wc,
     updated w (updateValues (this w)) (<[index := delta]> (lastDelta (this w)))
       (<[index := wc]> (lastWeightChange (this w)))
       (<[index := g]> (lastGradient w)) (scope_q w)).
Proof.
  intros Hty Hd H. js_dispatch Hty Hd.
  rewrite (updateWeightMinus_run _ _ _ _ _ _ _ _ _ H).
  destruct (minus_rule _ _ _ _ _) as [wc delta].
  js_lookups H. unfold updated. js_go. reflexivity.
Qed.

Lemma updateWeight_iRPROPp_run (tolerance : Q) (gradients : list Q)
    (index : nat) (dropoutRate : Q) (w : World) (g lg uv ld lwc : Q) :
  rpropType (this w) = RPROPType.iRPROPp ->
  js_gt dropoutRate 0 = false ->
  entries gradients index w g lg uv ld lwc ->
  updateWeight tolerance gradients index dropoutRate w =
    let '(wc, delta, lg') :=
      iplus_rule tolerance (maxStep (this w)) g lg uv lwc
        (error (this w)) (lastError (this w)) in
    (Normal wc,
     updated w (<[index := delta]> (updateValues (this w))) (lastDelta (this w))
       (<[index := wc]> (lastWeightChange (this w)))
       (<[index := lg']> (lastGradient w)) (scope_q w)).
Proof.
  intros Hty Hd H. js_dispatch Hty Hd.
  rewrite (updateiWeightPlus_run _ _ _ _ _ _ _ _ _ H).
  destruct (iplus_rule _ _ _ _ _ _ _ _) as [[wc delta] lg'].
  js_lookups H. unfold updated. js_go. reflexivity.
Qed.

Lemma updateWeight_iRPROPm_run (tolerance : Q) (gradients : list Q)
    (index : nat) (dropoutRate : Q) (w : World) (g lg uv ld lwc : Q) :
  rpropType (this w) = RPROPType.iRPROPm ->
  js_gt dropoutRate 0 = false ->
  entries gradients index w g lg uv ld lwc ->
  updateWeight tolerance gradients index dropoutRate w =
    let '(wc, delta) := minus_rule tolerance (maxStep (this w)) g lg ld in
    (Normal wc,
     updated w (updateValues (this w)) (<[index := delta]> (lastDelta (this w)))
       (<[index := wc]> (lastWeightChange (this w)))
       (<[index := g]> (lastGradient w)) (scope_q w)).
Proof.
  intros Hty Hd H. js_dispatch Hty Hd.
  rewrite (updateiWeightMinus_run _ _ _ _ _ _ _ _ _ H).
  destruct (minus_rule _ _ _ _ _) as [wc delta].
  js_lookups H. unfold updated. js_go. reflexivity.
Qed.

Lemma updateWeight_ARPROP_run (tolerance : Q) (gradients : list Q)
    (index : nat) (dropoutRate : Q) (w : World) (g lg uv ld lwc : Q) :
  rpropType (this w) = RPROPType.ARPROP ->
  js_gt dropoutRate 0 = false ->
  entries gradients index w g lg uv ld lwc ->
  updateWeight tolerance gradients index dropoutRate w =
    let '(wc, delta, lg') := plus_rule tolerance (maxStep (this w)) g lg uv lwc in
    record_change index
      (jacobi_finish
         (updated w (<[index := delta]> (updateValues (this w)))
            (lastDelta (this w)) (lastWeightChange (this w))
            (<[index := lg']> (lastGradient w)) (scope_q w))
         wc delta).
Proof.
  intros Hty Hd H. js_dispatch Hty Hd.
  rewrite (updateJacobiWeight_run _ _ _ _ _ _ _ _ _ H).
  destruct (plus_rule _ _ _ _ _ _) as [[wc delta] lg'].
  js_lookups H. unfold jacobi_finish, record_change, updated. js_go.
  destruct (scope_q w) as [qv|]; [|reflexivity].
  destruct (error_gt _ _); [destruct (js_eq _ _)|]; js_go; reflexivity.
Qed.

Lemma recognized_false (ty : string) :
  recognized ty = false ->
  String.eqb ty RPROPType.RPROPp = false /\
  String.eqb ty RPROPType.RPROPm = false /\
  String.eqb ty RPROPType.iRPROPp = false /\
  String.eqb ty RPROPType.iRPROPm = false /\
  String.eqb ty RPROPType.ARPROP = false.
Proof.
  unfold recognized. rewrite !orb_false_iff. tauto.
Qed.

(** An unrecognized tag: the [default] branch throws, nothing is written. *)
Lemma updateWeight_unknown_run (tolerance : Q) (gradients : list Q)
    (index : nat) (dropoutRate : Q) (w : World) :
  recognized (rpropType (this w)) = false ->
  js_gt dropoutRate 0 = false ->
  updateWeight tolerance gradients index dropoutRate w =
    (Throw (NeuralNetworkError ("Unknown RPROP type: " ++ rpropType (this w))), w).
Proof.
  intros Hty Hd. apply recognized_false in Hty as (H1 & H2 & H3 & H4 & H5).
  unfold updateWeight. rewrite Hd.
  unfold bind at 1. unfold field at 1. cbn [this rpropType].
  unfold bind at 1. rewrite H1, H2, H3, H4, H5. reflexivity.
Qed.

(** An index outside the gradient array or the previous-gradient array: the
    first two reads of every rule already leave the model, nothing is
    written. *)
Lemma outside_head (gradients : list Q) (index : nat) (w : World)
    (k : Q -> Q -> Js Q) :
  gradients !! index = None \/ lastGradient w !! index = None ->
  bind (element gradients index)
    (fun g => bind (lastGradient_at index) (fun lg => k g lg)) w
  = (Unrepresented, w).
Proof.
  intros Hout. unfold bind, lastGradient_at.
  destruct (gradients !! index) as [g|] eqn:Hg.
  - destruct Hout as [Hout|Hout]; [discriminate|].
    rewrite (element_Some _ _ _ _ Hg), (element_None _ _ _ Hout). reflexivity.
  - rewrite (element_None _ _ _ Hg). reflexivity.
Qed.

Lemma updateWeight_outside_run (tolerance : Q) (gradients : list Q)
    (index : nat) (dropoutRate : Q) (w : World) :
  gradients !! index = None \/ lastGradient w !! index = None ->
  snd (updateWeight tolerance gradients index dropoutRate w) = w.
Proof.
  intros Hout.
  unfold updateWeight.
  destruct (js_gt dropoutRate 0); [reflexivity|].
  unfold bind at 1. unfold field at 1.
  unfold bind at 1.
  unfold updateWeightPlus, updateWeightMinus, updateiWeightPlus,
    updateiWeightMinus, updateJacobiWeight.
  repeat (destruct (String.eqb _ _);
    [ rewrite (outside_head _ _ _ _ Hout); reflexivity | ]).
  reflexivity.
Qed.

Lemma error_gt_exceeds (e : Q) (le : errorValue) :
  error_gt e le = true <-> exceeds e le.
Proof.
  destruct le as [|l]; simpl.
  - split; [discriminate|contradiction].
  - apply js_gt_true.
Qed.

Lemma not_gt_false (x : Q) : ~ 0 < x -> js_gt x 0 = false.
Proof. intros H. apply js_gt_false. lra. Qed.

(** * The claims *)

(** C7.  Dropout exclusion: whatever the tag, the index and the store, a call
    of [updateWeight] with [dropoutRate > 0] returns exactly [0] and writes
    nothing; the iteration step built on it leaves the weight at that index
    (and every other weight) at its value. *)
Theorem C7_dropout_returns_zero (tolerance : Q) (gradients : list Q)
    (index : nat) (dropoutRate : Q) (w : World) (weights : list Q) :
  0 < dropoutRate ->
  updateWeight tolerance gradients index dropoutRate w = (Normal 0, w) /\
  snd (learnWeight tolerance gradients index dropoutRate weights w) = w /\
  Forall2 Qeq (fst (learnWeight tolerance gradients index dropoutRate weights w))
    weights.
Proof.
  intros Hd.
  pose proof (updateWeight_dropout_run tolerance gradients index _ w Hd) as Hrun.
  unfold learnWeight. rewrite Hrun. cbn [fst snd].
  split; [reflexivity|]. split; [reflexivity|].
  apply Forall2_same_length_lookup. split.
  - apply length_alter.
  - intros i x y Hx Hy.
    destruct (decide (index = i)) as [->|Hne].
    + rewrite list_lookup_alter_eq, Hy in Hx. cbn in Hx.
      injection Hx as <-. lra.
    + rewrite list_lookup_alter_ne, Hy in Hx by assumption.
      injection Hx as <-. reflexivity.
Qed.

Lemma C7_dropout_returns_zero_witness :
  updateWeight DEFAULT_ZERO_TOLERANCE [1; -2] 1 0.5 (start RPROPType.RPROPm 2 0 0.1 50 None)
    = (Normal 0, start RPROPType.RPROPm 2 0 0.1 50 None) /\
  snd (learnWeight DEFAULT_ZERO_TOLERANCE [1; -2] 1 0.5 [0.5; 0.25]
         (start RPROPType.RPROPm 2 0 0.1 50 None))
    = start RPROPType.RPROPm 2 0 0.1 50 None /\
  Forall2 Qeq
    (fst (learnWeight DEFAULT_ZERO_TOLERANCE [1; -2] 1 0.5 [0.5; 0.25]
            (start RPROPType.RPROPm 2 0 0.1 50 None)))
    [0.5; 0.25].
Proof.
  apply (C7_dropout_returns_zero DEFAULT_ZERO_TOLERANCE [1; -2] 1 0.5
           (start RPROPType.RPROPm 2 0 0.1 50 None) [0.5; 0.25]).
  reflexivity.
Defined.

(** C5.  iRPROP+ on a sign reversal ([sign(gradients[i] * lastGradient[i]) < 0]):
    [updateWeight] returns [-lastWeightChange[i]] when the current error
    exceeds the previous one and [0] otherwise (so, for a nonzero previous
    change, it undoes the step exactly when the error grew); either way the
    update value becomes [max(updateValues[i] * NEGATIVE_ETA, DELTA_MIN)],
    [lastGradient[i]] becomes [0], and the returned change is recorded. *)
Theorem C5_iRPROPp_reversal (tolerance : Q) (gradients : list Q) (index : nat)
    (dropoutRate : Q) (w : World) (g lg uv ld lwc : Q) :
  rpropType (this w) = RPROPType.iRPROPp ->
  ~ 0 < dropoutRate ->
  entries gradients index w g lg uv ld lwc ->
  sign tolerance (g * lg) < 0 ->
  exists (wc : Q) (w' : World),
    updateWeight tolerance gradients index dropoutRate w = (Normal wc, w') /\
    (exceeds (error (this w)) (lastError (this w)) -> wc = - lwc) /\
    (~ exceeds (error (this w)) (lastError (this w)) -> wc = 0) /\
    (~ lwc == 0 ->
       (wc == - lwc <-> exceeds (error (this w)) (lastError (this w)))) /\
    updateValues (this w') !! index = Some (Qmax (uv * NEGATIVE_ETA) DELTA_MIN) /\
    lastGradient w' !! index = Some 0 /\
    lastWeightChange (this w') !! index = Some wc.
Proof.
  intros Hty Hd H Hrev.
  rewrite (updateWeight_iRPROPp_run _ _ _ _ _ _ _ _ _ _ Hty (not_gt_false _ Hd) H).
  unfold iplus_rule.
  destruct (change_tests tolerance (g * lg)) as
    [(Hc & _)|[(_ & _ & -> & ->)|(Hc & _)]]; [rewrite Hc in Hrev; lra| |rewrite Hc in Hrev; lra].
  js_lookups H.
  eexists _, _. split; [reflexivity|].
  unfold updated; cbn [this lastGradient updateValues lastWeightChange].
  rewrite !list_lookup_insert_eq by assumption.
  pose proof (error_gt_exceeds (error (this w)) (lastError (this w))) as Hex.
  destruct (error_gt (error (this w)) (lastError (this w))).
  - assert (Hyes : exceeds (error (this w)) (lastError (this w))) by (apply Hex; reflexivity).
    repeat split; auto; try tauto; try (intros; reflexivity).
  - assert (Hno : ~ exceeds (error (this w)) (lastError (this w))).
    { intros Hyes. apply Hex in Hyes. discriminate. }
    repeat split; auto; try tauto; try (intros; exfalso; lra).
Qed.

Lemma C5_iRPROPp_reversal_witness :
  exists (wc : Q) (w' : World),
    updateWeight DEFAULT_ZERO_TOLERANCE [-1] 0 0
      (mkWorld
         (mkResilientPropagation [0.12] [0] [0.12] DEFAULT_ZERO_TOLERANCE 50
            RPROPType.iRPROPp 0.3 (Finite 0.2) 1)
         [1] None) = (Normal wc, w') /\
    (exceeds 0.3 (Finite 0.2) -> wc = - 0.12) /\
    (~ exceeds 0.3 (Finite 0.2) -> wc = 0) /\
    (~ 0.12 == 0 -> (wc == - 0.12 <-> exceeds 0.3 (Finite 0.2))) /\
    updateValues (this w') !! 0%nat = Some (Qmax (0.12 * NEGATIVE_ETA) DELTA_MIN) /\
    lastGradient w' !! 0%nat = Some 0 /\
    lastWeightChange (this w') !! 0%nat = Some wc.
Proof.
  apply (C5_iRPROPp_reversal DEFAULT_ZERO_TOLERANCE [-1] 0 0
           (mkWorld
              (mkResilientPropagation [0.12] [0] [0.12] DEFAULT_ZERO_TOLERANCE 50
                 RPROPType.iRPROPp 0.3 (Finite 0.2) 1)
              [1] None) (-1) 1 0.12 0 0.12).
  - reflexivity.
  - vm_compute. discriminate.
  - split; reflexivity.
  - reflexivity.
Defined.

(** C4.  What the code does where the claim expects [lastGradient[i] = 0]:
    in iRPROP-, after a call on a sign reversal
    ([sign(gradients[i] * lastGradient[i]) < 0]), [lastGradient[i]] holds the
    current gradient, which is not zero.  The [0] written in the reversal
    branch is overwritten by the assignment that follows the branches. *)
Theorem C4_iRPROPm_reversal_keeps_gradient (tolerance : Q) (gradients : list Q)
    (index : nat) (dropoutRate : Q) (w : World) (g lg uv ld lwc : Q) :
  rpropType (this w) = RPROPType.iRPROPm ->
  ~ 0 < dropoutRate ->
  entries gradients index w g lg uv ld lwc ->
  sign tolerance (g * lg) < 0 ->
  exists (wc : Q) (w' : World),
    updateWeight tolerance gradients index dropoutRate w = (Normal wc, w') /\
    lastGradient w' !! index = Some g /\
    ~ g == 0.
Proof.
  intros Hty Hd H Hrev.
  rewrite (updateWeight_iRPROPm_run _ _ _ _ _ _ _ _ _ _ Hty (not_gt_false _ Hd) H).
  unfold minus_rule. js_lookups H.
  eexists _, _. split; [reflexivity|].
  unfold updated; cbn [lastGradient].
  rewrite list_lookup_insert_eq by assumption.
  split; [reflexivity|].
  intros Hz.
  destruct (sign_cases tolerance (g * lg)) as
    [(Hc & _)|[(_ & Hneg & _)|(Hc & _)]]; try (rewrite Hc in Hrev; lra).
  rewrite Hz in Hneg. lra.
Qed.

Lemma C4_iRPROPm_reversal_keeps_gradient_witness :
  exists (wc : Q) (w' : World),
    updateWeight DEFAULT_ZERO_TOLERANCE [1] 0 0
      (run DEFAULT_ZERO_TOLERANCE (start RPROPType.iRPROPm 1 0 0.1 50 None)
         [UpdateWeight [-1] 0 0]) = (Normal wc, w') /\
    lastGradient w' !! 0%nat = Some 1 /\
    ~ 1 == 0.
Proof.
  apply (C4_iRPROPm_reversal_keeps_gradient DEFAULT_ZERO_TOLERANCE [1] 0 0
           (run DEFAULT_ZERO_TOLERANCE (start RPROPType.iRPROPm 1 0 0.1 50 None)
              [UpdateWeight [-1] 0 0])
           1 (-1) 0.1 (Qmax (0 * NEGATIVE_ETA) DELTA_MIN)
           (sign DEFAULT_ZERO_TOLERANCE (-1) * Qmax (0 * NEGATIVE_ETA) DELTA_MIN)).
  - reflexivity.
  - vm_compute. discriminate.
  - split; reflexivity.
  - reflexivity.
Defined.

(** C8.  An unrecognized tag, as the code treats it.  The constructor takes
    no tag and always sets [RPROPp], so it rejects nothing.  When [rpropType]
    holds an unrecognized tag, a call with [dropoutRate <= 0] throws
    [NeuralNetworkError("Unknown RPROP type: " + tag)] and writes nothing; a
    call with [dropoutRate > 0] returns [0] before the tag is looked at. *)
Theorem C8_unknown_tag (tolerance : Q) (gradients : list Q) (index : nat)
    (dropoutRate : Q) (w : World) :
  recognized (rpropType (this w)) = false ->
  (~ 0 < dropoutRate ->
     updateWeight tolerance gradients index dropoutRate w =
       (Throw (NeuralNetworkError ("Unknown RPROP type: " ++ rpropType (this w))),
        w)) /\
  (0 < dropoutRate ->
     updateWeight tolerance gradients index dropoutRate w = (Normal 0, w)) /\
  (forall (weights : nat) (error0 initialUpdate maxStep : Q),
     rpropType (constructor weights error0 initialUpdate maxStep)
       = RPROPType.RPROPp).
Proof.
  intros Hty. split; [|split].
  - intros Hd. apply updateWeight_unknown_run; [assumption|].
    apply not_gt_false; assumption.
  - apply updateWeight_dropout_run.
  - reflexivity.
Qed.

Lemma C8_unknown_tag_witness :
  (~ 0 < 0 ->
     updateWeight DEFAULT_ZERO_TOLERANCE [1] 0 0
       (start "Quickprop" 1 0 0.1 50 None) =
       (Throw (NeuralNetworkError "Unknown RPROP type: Quickprop"),
        start "Quickprop" 1 0 0.1 50 None)) /\
  (0 < 0 ->
     updateWeight DEFAULT_ZERO_TOLERANCE [1] 0 0
       (start "Quickprop" 1 0 0.1 50 None) =
       (Normal 0, start "Quickprop" 1 0 0.1 50 None)) /\
  (forall (weights : nat) (error0 initialUpdate maxStep : Q),
     rpropType (constructor weights error0 initialUpdate maxStep)
       = RPROPType.RPROPp).
Proof.
  apply (C8_unknown_tag DEFAULT_ZERO_TOLERANCE [1] 0 0
           (start "Quickprop" 1 0 0.1 50 None)).
  reflexivity.
Defined.

(** C8, as stated, fails: with the unrecognized tag ["Quickprop"] a call with
    [dropoutRate = 0.5] returns [0] and raises nothing. *)
Lemma C8_counterexample :
  recognized (rpropType (this (start "Quickprop" 1 0 0.1 50 None))) = false /\
  updateWeight DEFAULT_ZERO_TOLERANCE [1] 0 0.5
    (start "Quickprop" 1 0 0.1 50 None)
  = (Normal 0, start "Quickprop" 1 0 0.1 50 None).
Proof. split; reflexivity. Qed.

(** ** What no call changes *)

Lemma frame_refl (w : World) : frame w w.
Proof. split; reflexivity. Qed.

Lemma frame_trans (w1 w2 w3 : World) : frame w1 w2 -> frame w2 w3 -> frame w1 w3.
Proof.
  intros [] []. split; etransitivity; eassumption.
Qed.

Lemma keeps_ret {A} (a : A) : keeps_frame (ret a).
Proof. intros w. apply frame_refl. Qed.

Lemma keeps_throw {A} (e : JsError) : keeps_frame (@throw A e).
Proof. intros w. apply frame_refl. Qed.

Lemma keeps_unrepresented {A} : keeps_frame (@unrepresented A).
Proof. intros w. apply frame_refl. Qed.

Lemma keeps_field {A} (f : ResilientPropagation -> A) : keeps_frame (field f).
Proof. intros w. apply frame_refl. Qed.

Lemma element_snd (a : list Q) (index : nat) (w : World) :
  snd (element a index w) = w.
Proof. unfold element. destruct (a !! index); reflexivity. Qed.

Lemma keeps_element (a : list Q) (index : nat) : keeps_frame (element a index).
Proof. intros w. rewrite element_snd. apply frame_refl. Qed.

Lemma keeps_this_updateValues (index : nat) : keeps_frame (this_updateValues index).
Proof. intros w. unfold this_updateValues. rewrite element_snd. apply frame_refl. Qed.

Lemma keeps_this_lastDelta (index : nat) : keeps_frame (this_lastDelta index).
Proof. intros w. unfold this_lastDelta. rewrite element_snd. apply frame_refl. Qed.

Lemma keeps_this_lastWeightChange (index : nat) :
  keeps_frame (this_lastWeightChange index).
Proof. intros w. unfold this_lastWeightChange. rewrite element_snd. apply frame_refl. Qed.

Lemma keeps_lastGradient_at (index : nat) : keeps_frame (lastGradient_at index).
Proof. intros w. unfold lastGradient_at. rewrite element_snd. apply frame_refl. Qed.

Lemma keeps_set_updateValues (index : nat) (v : Q) :
  keeps_frame (set_updateValues index v).
Proof.
  intros w. unfold set_updateValues.
  destruct (assign _ _ _) as [l|] eqn:Ha; [|apply frame_refl].
  apply assign_length in Ha. split; try reflexivity. exact Ha.
Qed.

Lemma keeps_set_lastDelta (index : nat) (v : Q) :
  keeps_frame (set_lastDelta index v).
Proof.
  intros w. unfold set_lastDelta.
  destruct (assign _ _ _) as [l|] eqn:Ha; [|apply frame_refl].
  apply assign_length in Ha. split; try reflexivity. exact Ha.
Qed.

Lemma keeps_set_lastWeightChange (index : nat) (v : Q) :
  keeps_frame (set_lastWeightChange index v).
Proof.
  intros w. unfold set_lastWeightChange.
  destruct (assign _ _ _) as [l|] eqn:Ha; [|apply frame_refl].
  apply assign_length in Ha. split; try reflexivity. exact Ha.
Qed.

Lemma keeps_set_lastGradient (index : nat) (v : Q) :
  keeps_frame (set_lastGradient index v).
Proof.
  intros w. unfold set_lastGradient.
  destruct (assign _ _ _) as [l|] eqn:Ha; [|apply frame_refl].
  apply assign_length in Ha. split; try reflexivity. exact Ha.
Qed.

Lemma keeps_read_q : keeps_frame read_q.
Proof. intros w. unfold read_q. destruct (scope_q w); apply frame_refl. Qed.

Lemma keeps_write_q (v : Q) : keeps_frame (write_q v).
Proof.
  intros w. unfold write_q.
  destruct (scope_q w); [split; reflexivity|apply frame_refl].
Qed.

Lemma keeps_bind {A B} (m : Js A) (k : A -> Js B) :
  keeps_frame m -> (forall a, keeps_frame (k a)) -> keeps_frame (bind m k).
Proof.
  intros Hm Hk w. unfold bind.
  specialize (Hm w). destruct (m w) as [[a|e|] w1]; cbn [snd] in *.
  - eapply frame_trans; [exact Hm|apply Hk].
  - exact Hm.
  - exact Hm.
Qed.

Create HintDb keeps.

#[local] Hint Resolve keeps_ret keeps_throw keeps_unrepresented keeps_field
  keeps_element keeps_this_updateValues keeps_this_lastDelta
  keeps_this_lastWeightChange keeps_lastGradient_at keeps_set_updateValues
  keeps_set_lastDelta keeps_set_lastWeightChange keeps_set_lastGradient
  keeps_read_q keeps_write_q : keeps.

(** Walks a computation down its binds and branches. *)
Ltac keeps_walk :=
  repeat first
    [ solve [auto with keeps]
    | apply keeps_bind; [|intros ?]
    | match goal with
      | |- keeps_frame (if ?b then _ else _) => destruct b
      end
    | progress cbv zeta ].

Lemma keeps_updateWeight (tolerance : Q) (gradients : list Q) (index : nat)
    (dropoutRate : Q) :
  keeps_frame (updateWeight tolerance gradients index dropoutRate).
Proof.
  unfold updateWeight, updateWeightPlus, updateWeightMinus, updateiWeightPlus,
    updateiWeightMinus, updateJacobiWeight.
  keeps_walk.
Qed.

Lemma step_frame (tolerance : Q) (w : World) (ev : event) :
  rpropType (this (step tolerance w ev)) = rpropType (this w) /\
  maxStep (this (step tolerance w ev)) = maxStep (this w) /\
  q (this (step tolerance w ev)) = q (this w) /\
  length (updateValues (this (step tolerance w ev))) = length (updateValues (this w)) /\
  length (lastDelta (this (step tolerance w ev))) = length (lastDelta (this w)) /\
  length (lastWeightChange (this (step tolerance w ev)))
    = length (lastWeightChange (this w)) /\
  length (lastGradient (step tolerance w ev)) = length (lastGradient w).
Proof.
  destruct ev as [e|gradients index dropoutRate|]; cbn [step].
  - repeat split; reflexivity.
  - destruct (keeps_updateWeight tolerance gradients index dropoutRate w).
    repeat split; assumption.
  - repeat split; reflexivity.
Qed.

(** ** Step sizes stay clamped *)

Lemma DELTA_MIN_pos : 0 < DELTA_MIN.
Proof. reflexivity. Qed.

Lemma grow_in_bounds (ms x : Q) :
  in_bounds ms x -> in_bounds ms (Qmin (x * POSITIVE_ETA) ms).
Proof.
  unfold in_bounds, POSITIVE_ETA. intros [Hlo Hhi].
  pose proof DELTA_MIN_pos as Hpos.
  destruct (Q.min_spec (x * 1.2) ms) as [[Hlt Heq]|[Hle Heq]]; rewrite Heq;
    split; lra.
Qed.

Lemma shrink_in_bounds (ms x : Q) :
  0 <= x -> x <= ms -> DELTA_MIN <= ms ->
  in_bounds ms (Qmax (x * NEGATIVE_ETA) DELTA_MIN).
Proof.
  unfold in_bounds, NEGATIVE_ETA. intros Hlo Hhi Hms.
  destruct (Q.max_spec (x * 0.5) DELTA_MIN) as [[Hlt Heq]|[Hle Heq]];
    rewrite Heq; split; lra.
Qed.

Lemma in_bounds_pos (ms x : Q) : in_bounds ms x -> 0 < x.
Proof. intros [Hlo _]. pose proof DELTA_MIN_pos. lra. Qed.

Lemma plus_rule_bounds (tolerance ms g lg uv lwc : Q) :
  in_bounds ms uv ->
  in_bounds ms (snd (fst (plus_rule tolerance ms g lg uv lwc))).
Proof.
  intros Hb. pose proof (in_bounds_pos _ _ Hb) as Hpos. pose proof Hb as [Hlo Hhi].
  unfold plus_rule.
  destruct (js_gt _ 0); [|destruct (js_lt _ 0)]; cbn [fst snd].
  - apply grow_in_bounds; assumption.
  - apply shrink_in_bounds; lra.
  - assumption.
Qed.

Lemma iplus_rule_bounds (tolerance ms g lg uv lwc e : Q) (le : errorValue) :
  in_bounds ms uv ->
  in_bounds ms (snd (fst (iplus_rule tolerance ms g lg uv lwc e le))).
Proof.
  intros Hb. pose proof (in_bounds_pos _ _ Hb) as Hpos. pose proof Hb as [Hlo Hhi].
  unfold iplus_rule.
  destruct (js_gt _ 0); [|destruct (js_lt _ 0)]; cbn [fst snd].
  - apply grow_in_bounds; assumption.
  - apply shrink_in_bounds; lra.
  - assumption.
Qed.

(** The new last delta of the minus variants, from a last delta that is in
    bounds, or that is still [0] next to a zero previous gradient. *)
Lemma minus_rule_bounds (tolerance ms g lg ld : Q) :
  DELTA_MIN <= ms ->
  in_bounds ms ld \/ (ld == 0 /\ lg == 0) ->
  in_bounds ms (snd (minus_rule tolerance ms g lg ld)).
Proof.
  intros Hms Hld. unfold minus_rule. cbn [snd].
  destruct (change_tests tolerance (g * lg)) as
    [(_ & Hpos & ->)|[(_ & _ & -> & _)|(_ & -> & _)]].
  - destruct Hld as [Hb|[_ Hz]].
    + apply grow_in_bounds; assumption.
    + rewrite Hz in Hpos. lra.
  - destruct Hld as [Hb|[Hz _]].
    + pose proof (in_bounds_pos _ _ Hb). destruct Hb. apply shrink_in_bounds; lra.
    + pose proof DELTA_MIN_pos. apply shrink_in_bounds; lra.
  - destruct Hld as [Hb|[Hz _]].
    + pose proof (in_bounds_pos _ _ Hb). destruct Hb. apply shrink_in_bounds; lra.
    + pose proof DELTA_MIN_pos. apply shrink_in_bounds; lra.
Qed.

Lemma start_invariant (ty : string) (n : nat) (error0 initialUpdate ms : Q)
    (scope : option Q) :
  in_bounds ms initialUpdate ->
  invariant n ms ty [] (start ty n error0 initialUpdate ms scope).
Proof.
  intros Hb. unfold start, constructor, newFloatArray.
  split; cbn [this lastGradient updateValues lastDelta lastWeightChange
              maxStep rpropType with_rpropType]; rewrite ?length_replicate;
    try reflexivity.
  - intros i uv Hi. apply lookup_replicate in Hi as [-> _]. exact Hb.
  - intros _ i ld Hi. apply lookup_replicate in Hi as [-> Hlt].
    cbn [touched existsb]. split; [reflexivity|].
    apply lookup_replicate. split; [reflexivity|assumption].
Qed.

Lemma touched_snoc (i : nat) (evs : list event) (ev : event) :
  touched i (evs ++ [ev]) = touched i evs || updates i ev.
Proof.
  unfold touched. rewrite existsb_app. cbn [existsb]. rewrite orb_false_r.
  reflexivity.
Qed.

(** The entries of an index inside the arrays. *)
Lemma invariant_entries (n : nat) (ms : Q) (ty : string) (evs : list event)
    (w : World) (gradients : list Q) (index : nat) (g : Q) :
  invariant n ms ty evs w ->
  gradients !! index = Some g ->
  (index < n)%nat ->
  exists lg uv ld lwc : Q, entries gradients index w g lg uv ld lwc.
Proof.
  intros Hinv Hg Hlt. destruct Hinv as [_ _ H1 H2 H3 H4 _ _].
  destruct (lookup_lt_is_Some_2 (lastGradient w) index) as [lg Hlg]; [lia|].
  destruct (lookup_lt_is_Some_2 (updateValues (this w)) index) as [uv Huv]; [lia|].
  destruct (lookup_lt_is_Some_2 (lastDelta (this w)) index) as [ld Hld]; [lia|].
  destruct (lookup_lt_is_Some_2 (lastWeightChange (this w)) index) as [lwc Hlwc]; [lia|].
  exists lg, uv, ld, lwc. split; assumption.
Qed.

(** The three ways a call can go, seen from a store under the invariant. *)
Lemma call_cases (tolerance : Q) (n : nat) (ms : Q) (ty : string)
    (evs : list event) (w : World) (gradients : list Q) (index : nat)
    (dropoutRate : Q) :
  invariant n ms ty evs w ->
  (updateWeight tolerance gradients index dropoutRate w = (Normal 0, w) /\
   forall i, updates i (UpdateWeight gradients index dropoutRate) = false) \/
  (snd (updateWeight tolerance gradients index dropoutRate w) = w /\
   forall i, (i < n)%nat ->
     updates i (UpdateWeight gradients index dropoutRate) = false) \/
  (js_gt dropoutRate 0 = false /\ (index < n)%nat /\
   (forall i, updates i (UpdateWeight gradients index dropoutRate)
              = Nat.eqb index i) /\
   exists g lg uv ld lwc : Q, entries gradients index w g lg uv ld lwc).
Proof.
  intros Hinv. cbn [updates].
  destruct (js_gt dropoutRate 0) eqn:Hd.
  - left. split.
    + apply updateWeight_dropout_run. apply js_gt_true. exact Hd.
    + intros i. rewrite andb_false_r. reflexivity.
  - destruct (gradients !! index) as [g|] eqn:Hg.
    + destruct (decide (index < n)%nat) as [Hlt|Hge].
      * right; right. split; [reflexivity|]. split; [assumption|]. split.
        -- intros i. rewrite bool_decide_eq_true_2 by eauto.
           cbn [negb]. rewrite !andb_true_r. reflexivity.
        -- exists g. eapply invariant_entries; eassumption.
      * right; left. split.
        -- apply updateWeight_outside_run. right.
           apply lookup_ge_None. rewrite (inv_lastGradient_length _ _ _ _ _ Hinv). lia.
        -- intros i Hi. replace (Nat.eqb index i) with false; [reflexivity|].
           symmetry. apply Nat.eqb_neq. lia.
    + right; left. split.
      * apply updateWeight_outside_run. left. exact Hg.
      * intros i _. rewrite bool_decide_eq_false_2.
        -- rewrite andb_false_r. reflexivity.
        -- intros [x Hx]. discriminate.
Qed.

Lemma tag_cases (ty : string) :
  ty = RPROPType.RPROPp \/ ty = RPROPType.RPROPm \/ ty = RPROPType.iRPROPp \/
  ty = RPROPType.iRPROPm \/ ty = RPROPType.ARPROP \/ recognized ty = false.
Proof.
  unfold recognized.
  destruct (String.eqb_spec ty RPROPType.RPROPp); [tauto|].
  destruct (String.eqb_spec ty RPROPType.RPROPm); [tauto|].
  destruct (String.eqb_spec ty RPROPType.iRPROPp); [tauto|].
  destruct (String.eqb_spec ty RPROPType.iRPROPm); [tauto|].
  destruct (String.eqb_spec ty RPROPType.ARPROP); [tauto|].
  repeat right. reflexivity.
Qed.

(** ARPROP's second half and the recording of the change leave the three
    arrays of the first half alone. *)
Lemma jacobi_arrays (index : nat) (w1 : World) (wc delta : Q) :
  updateValues (this (snd (record_change index (jacobi_finish w1 wc delta))))
    = updateValues (this w1) /\
  lastDelta (this (snd (record_change index (jacobi_finish w1 wc delta))))
    = lastDelta (this w1) /\
  lastGradient (snd (record_change index (jacobi_finish w1 wc delta)))
    = lastGradient w1.
Proof.
  unfold record_change, jacobi_finish.
  destruct (scope_q w1); [destruct (error_gt _ _); [destruct (js_eq _ _)|]|];
    repeat split; reflexivity.
Qed.

(** The update values after an in-range call without dropout. *)
Lemma updateWeight_updateValues (tolerance : Q) (gradients : list Q)
    (index : nat) (dropoutRate : Q) (w : World) (g lg uv ld lwc : Q) :
  js_gt dropoutRate 0 = false ->
  entries gradients index w g lg uv ld lwc ->
  in_bounds (maxStep (this w)) uv ->
  exists delta : Q,
    in_bounds (maxStep (this w)) delta /\
    updateValues (this (snd (updateWeight tolerance gradients index dropoutRate w)))
      = <[index := delta]> (updateValues (this w)).
Proof.
  intros Hd H Hb.
  destruct (tag_cases (rpropType (this w))) as [Hty|[Hty|[Hty|[Hty|[Hty|Hty]]]]].
  - rewrite (updateWeight_RPROPp_run _ _ _ _ _ _ _ _ _ _ Hty Hd H).
    pose proof (plus_rule_bounds tolerance (maxStep (this w)) g lg uv lwc Hb) as Hn.
    destruct (plus_rule _ _ _ _ _ _) as [[wc delta] lg'].
    exists delta. split; [exact Hn|reflexivity].
  - rewrite (updateWeight_RPROPm_run _ _ _ _ _ _ _ _ _ _ Hty Hd H).
    destruct (minus_rule _ _ _ _ _) as [wc delta].
    exists uv. split; [exact Hb|]. cbn [snd updated this updateValues].
    symmetry. apply list_insert_id. apply H.
  - rewrite (updateWeight_iRPROPp_run _ _ _ _ _ _ _ _ _ _ Hty Hd H).
    pose proof (iplus_rule_bounds tolerance (maxStep (this w)) g lg uv lwc
                  (error (this w)) (lastError (this w)) Hb) as Hn.
    destruct (iplus_rule _ _ _ _ _ _ _ _) as [[wc delta] lg'].
    exists delta. split; [exact Hn|reflexivity].
  - rewrite (updateWeight_iRPROPm_run _ _ _ _ _ _ _ _ _ _ Hty Hd H).
    destruct (minus_rule _ _ _ _ _) as [wc delta].
    exists uv. split; [exact Hb|]. cbn [snd updated this updateValues].
    symmetry. apply list_insert_id. apply H.
  - rewrite (updateWeight_ARPROP_run _ _ _ _ _ _ _ _ _ _ Hty Hd H).
    pose proof (plus_rule_bounds tolerance (maxStep (this w)) g lg uv lwc Hb) as Hn.
    destruct (plus_rule _ _ _ _ _ _) as [[wc delta] lg'].
    exists delta. split; [exact Hn|].
    rewrite (proj1 (jacobi_arrays _ _ _ _)). reflexivity.
  - rewrite (updateWeight_unknown_run _ _ _ _ _ Hty Hd).
    exists uv. split; [exact Hb|]. cbn [snd].
    symmetry. apply list_insert_id. apply H.
Qed.

Lemma step_updateValues (tolerance : Q) (n : nat) (ms : Q) (ty : string)
    (evs : list event) (w : World) (ev : event) :
  invariant n ms ty evs w ->
  forall (i : nat) (uv : Q),
    updateValues (this (step tolerance w ev)) !! i = Some uv -> in_bounds ms uv.
Proof.
  intros Hinv i uv.
  destruct ev as [e|gradients index dropoutRate|]; cbn [step];
    try (apply (inv_updateValues _ _ _ _ _ Hinv)).
  destruct (call_cases tolerance n ms ty evs w gradients index dropoutRate Hinv)
    as [[-> _]|[[-> _]|(Hd & Hlt & _ & g & lg & uv0 & ld & lwc & H)]];
    try (apply (inv_updateValues _ _ _ _ _ Hinv)).
  pose proof (inv_updateValues _ _ _ _ _ Hinv index uv0 (entry_updateValue _ _ _ _ _ _ _ _ H)) as Hb.
  rewrite <- (inv_maxStep _ _ _ _ _ Hinv) in Hb |- *.
  destruct (updateWeight_updateValues tolerance gradients index dropoutRate w
              g lg uv0 ld lwc Hd H Hb) as (delta & Hdelta & ->).
  destruct (decide (index = i)) as [->|Hne].
  - rewrite list_lookup_insert_eq by (eapply lookup_lt_Some; apply H).
    intros [= <-]. exact Hdelta.
  - rewrite list_lookup_insert_ne by assumption.
    rewrite (inv_maxStep _ _ _ _ _ Hinv).
    apply (inv_updateValues _ _ _ _ _ Hinv).
Qed.

Lemma minus_cases (ty : string) :
  minus_variant ty = true -> ty = RPROPType.RPROPm \/ ty = RPROPType.iRPROPm.
Proof.
  unfold minus_variant. intros H. apply orb_true_iff in H as [H|H];
    apply String.eqb_eq in H; auto.
Qed.

(** The minus variants after an in-range call without dropout. *)
Lemma updateWeight_minus_run (tolerance : Q) (gradients : list Q)
    (index : nat) (dropoutRate : Q) (w : World) (g lg uv ld lwc : Q) :
  minus_variant (rpropType (this w)) = true ->
  js_gt dropoutRate 0 = false ->
  entries gradients index w g lg uv ld lwc ->
  updateWeight tolerance gradients index dropoutRate w =
    let '(wc, delta) := minus_rule tolerance (maxStep (this w)) g lg ld in
    (Normal wc,
     updated w (updateValues (this w)) (<[index := delta]> (lastDelta (this w)))
       (<[index := wc]> (lastWeightChange (this w)))
       (<[index := g]> (lastGradient w)) (scope_q w)).
Proof.
  intros Hty Hd H. apply minus_cases in Hty as [Hty|Hty].
  - eapply updateWeight_RPROPm_run; eassumption.
  - eapply updateWeight_iRPROPm_run; eassumption.
Qed.

Lemma step_lastDelta (tolerance : Q) (n : nat) (ms : Q) (ty : string)
    (evs : list event) (w : World) (ev : event) :
  invariant n ms ty evs w ->
  minus_variant ty = true ->
  forall (i : nat) (ld : Q),
    lastDelta (this (step tolerance w ev)) !! i = Some ld ->
    if touched i (evs ++ [ev]) then in_bounds ms ld
    else ld = 0 /\ lastGradient (step tolerance w ev) !! i = Some 0.
Proof.
  intros Hinv Hminus i ld. rewrite touched_snoc.
  pose proof (inv_lastDelta _ _ _ _ _ Hinv Hminus) as Hold.
  destruct ev as [e|gradients index dropoutRate|]; cbn [step].
  - cbn [updates snd this lastGradient lastDelta with_error].
    rewrite orb_false_r. apply Hold.
  - destruct (call_cases tolerance n ms ty evs w gradients index dropoutRate Hinv)
      as [[Hrun Hu]|[[Hrun Hu]|(Hd & Hlt & Hu & g & lg & uv & ld0 & lwc & H)]].
    + rewrite Hrun, Hu, orb_false_r. apply Hold.
    + rewrite Hrun. intros Hi. rewrite Hu, orb_false_r; [apply Hold; exact Hi|].
      apply lookup_lt_Some in Hi.
      rewrite (inv_lastDelta_length _ _ _ _ _ Hinv) in Hi. exact Hi.
    + rewrite Hu.
      rewrite <- (inv_rpropType _ _ _ _ _ Hinv) in Hminus.
      rewrite (updateWeight_minus_run _ _ _ _ _ _ _ _ _ _ Hminus Hd H).
      pose proof (Hold index ld0 (entry_lastDelta _ _ _ _ _ _ _ _ H)) as Hidx.
      assert (Hms : DELTA_MIN <= ms).
      { pose proof (inv_updateValues _ _ _ _ _ Hinv index uv
                      (entry_updateValue _ _ _ _ _ _ _ _ H)) as [? ?]. lra. }
      assert (Hnew : in_bounds ms (snd (minus_rule tolerance ms g lg ld0))).
      { apply minus_rule_bounds; [exact Hms|].
        destruct (touched index evs); [left; exact Hidx|right].
        destruct Hidx as [-> Hz].
        rewrite (entry_lastGradient _ _ _ _ _ _ _ _ H) in Hz.
        injection Hz as ->. split; reflexivity. }
      rewrite (inv_maxStep _ _ _ _ _ Hinv).
      destruct (minus_rule tolerance ms g lg ld0) as [wc delta].
      cbn [snd updated this lastDelta lastGradient] in *.
      destruct (decide (index = i)) as [->|Hne].
      * rewrite Nat.eqb_refl, orb_true_r.
        rewrite list_lookup_insert_eq by (eapply lookup_lt_Some; apply H).
        intros [= <-]. exact Hnew.
      * replace (Nat.eqb index i) with false by (symmetry; apply Nat.eqb_neq; exact Hne).
        rewrite orb_false_r.
        rewrite !list_lookup_insert_ne by assumption. apply Hold.
  - cbn [updates postIteration snd this lastGradient lastDelta with_lastError].
    rewrite orb_false_r. apply Hold.
Qed.

Lemma step_invariant (tolerance : Q) (n : nat) (ms : Q) (ty : string)
    (evs : list event) (w : World) (ev : event) :
  invariant n ms ty evs w ->
  invariant n ms ty (evs ++ [ev]) (step tolerance w ev).
Proof.
  intros Hinv.
  destruct (step_frame tolerance w ev) as (Fty & Fms & _ & L1 & L2 & L3 & L4).
  pose proof Hinv as [Hms Hty H1 H2 H3 H4 Huv Hld].
  split.
  - congruence.
  - congruence.
  - congruence.
  - congruence.
  - congruence.
  - congruence.
  - eapply step_updateValues; eassumption.
  - intros Hminus. eapply step_lastDelta; eassumption.
Qed.

Lemma run_snoc (tolerance : Q) (w : World) (evs : list event) (ev : event) :
  run tolerance w (evs ++ [ev]) = step tolerance (run tolerance w evs) ev.
Proof. unfold run. rewrite fold_left_app. reflexivity. Qed.

(** The invariant holds all along a run from construction. *)
Lemma run_invariant (tolerance : Q) (ty : string) (n : nat)
    (error0 initialUpdate ms : Q) (scope : option Q) (evs : list event) :
  in_bounds ms initialUpdate ->
  invariant n ms ty evs
    (run tolerance (start ty n error0 initialUpdate ms scope) evs).
Proof.
  intros Hb. induction evs as [|ev evs IH] using rev_ind.
  - apply start_invariant. exact Hb.
  - rewrite run_snoc. apply step_invariant. exact IH.
Qed.

(** C2.  Step clamping, as the code has it.  Start from a strategy built with
    [DELTA_MIN <= initialUpdate <= maxStep] (the defaults [0.1] and [50] are
    such) and a zero previous-gradient vector, and let any sequence of
    events happen.  Then, whatever the tag, every [updateValues[i]] lies in
    [[DELTA_MIN, maxStep]]; and for RPROP- and iRPROP- [lastDelta[i]] lies in
    [[DELTA_MIN, maxStep]] from the first call that updates index [i] on
    (no dropout, index inside the arrays), and is the constructor's [0]
    before that call. *)
Theorem C2_step_sizes_clamped (tolerance : Q) (ty : string) (n : nat)
    (error0 initialUpdate ms : Q) (scope : option Q) (evs : list event)
    (i : nat) :
  in_bounds ms initialUpdate ->
  (i < n)%nat ->
  (exists uv : Q,
     updateValues
       (this (run tolerance (start ty n error0 initialUpdate ms scope) evs)) !! i
       = Some uv /\
     in_bounds ms uv) /\
  (minus_variant ty = true ->
   exists ld : Q,
     lastDelta
       (this (run tolerance (start ty n error0 initialUpdate ms scope) evs)) !! i
       = Some ld /\
     (touched i evs = true -> in_bounds ms ld) /\
     (touched i evs = false -> ld = 0)).
Proof.
  intros Hb Hi.
  pose proof (run_invariant tolerance ty n error0 initialUpdate ms scope evs Hb)
    as Hinv.
  split.
  - destruct (lookup_lt_is_Some_2
                (updateValues
                   (this (run tolerance (start ty n error0 initialUpdate ms scope) evs)))
                i) as [uv Huv].
    { rewrite (inv_updateValues_length _ _ _ _ _ Hinv). exact Hi. }
    exists uv. split; [exact Huv|].
    apply (inv_updateValues _ _ _ _ _ Hinv i uv Huv).
  - intros Hminus.
    destruct (lookup_lt_is_Some_2
                (lastDelta
                   (this (run tolerance (start ty n error0 initialUpdate ms scope) evs)))
                i) as [ld Hld].
    { rewrite (inv_lastDelta_length _ _ _ _ _ Hinv). exact Hi. }
    exists ld. split; [exact Hld|].
    pose proof (inv_lastDelta _ _ _ _ _ Hinv Hminus i ld Hld) as Hcase.
    destruct (touched i evs).
    + split; [intros _; exact Hcase|discriminate].
    + split; [discriminate|intros _; apply Hcase].
Qed.

Lemma C2_step_sizes_clamped_witness :
  (exists uv : Q,
     updateValues
       (this (run DEFAULT_ZERO_TOLERANCE
                (start RPROPType.RPROPm 2 0 DEFAULT_INITIAL_UPDATE
                   DEFAULT_MAX_STEP None)
                [UpdateWeight [1; 1] 0 0; UpdateWeight [1; 1] 0 0;
                 UpdateWeight [-1; 1] 0 0])) !! 0%nat
       = Some uv /\
     in_bounds DEFAULT_MAX_STEP uv) /\
  (minus_variant RPROPType.RPROPm = true ->
   exists ld : Q,
     lastDelta
       (this (run DEFAULT_ZERO_TOLERANCE
                (start RPROPType.RPROPm 2 0 DEFAULT_INITIAL_UPDATE
                   DEFAULT_MAX_STEP None)
                [UpdateWeight [1; 1] 0 0; UpdateWeight [1; 1] 0 0;
                 UpdateWeight [-1; 1] 0 0])) !! 0%nat
       = Some ld /\
     (touched 0 [UpdateWeight [1; 1] 0 0; UpdateWeight [1; 1] 0 0;
                 UpdateWeight [-1; 1] 0 0] = true ->
      in_bounds DEFAULT_MAX_STEP ld) /\
     (touched 0 [UpdateWeight [1; 1] 0 0; UpdateWeight [1; 1] 0 0;
                 UpdateWeight [-1; 1] 0 0] = false ->
      ld = 0)).
Proof.
  apply (C2_step_sizes_clamped DEFAULT_ZERO_TOLERANCE RPROPType.RPROPm 2 0
           DEFAULT_INITIAL_UPDATE DEFAULT_MAX_STEP None
           [UpdateWeight [1; 1] 0 0; UpdateWeight [1; 1] 0 0;
            UpdateWeight [-1; 1] 0 0] 0).
  - split; vm_compute; discriminate.
  - lia.
Defined.

(** C2, as stated, fails: in an RPROP- strategy on two weights built with the
    defaults, after an [updateWeight] call for index [0] the step size of
    index [1] is [lastDelta[1] = 0], below [DELTA_MIN]; and in one on a single
    weight, after a call for index [0] with [dropoutRate = 0.5], the step
    size of that index is [lastDelta[0] = 0]. *)
Lemma C2_counterexample :
  rpropType (this rpropm_after_one_call) = RPROPType.RPROPm /\
  lastDelta (this rpropm_after_one_call) !! 1%nat = Some 0 /\
  rpropType (this rpropm_after_dropout) = RPROPType.RPROPm /\
  lastDelta (this rpropm_after_dropout) !! 0%nat = Some 0 /\
  ~ in_bounds DEFAULT_MAX_STEP 0.
Proof.
  repeat (split; [reflexivity|]).
  intros [Hlo _]. pose proof DELTA_MIN_pos. lra.
Qed.

(** ** The sign of a weight change *)

Lemma sign_positive (tolerance x : Q) :
  tolerance <= x -> 0 < x -> sign tolerance x = 1.
Proof.
  intros Htol Hpos.
  destruct (sign_cases tolerance x) as [(H & _)|[(_ & Hneg & _)|(_ & [Habs|Hz])]].
  - exact H.
  - lra.
  - rewrite Qabs_pos in Habs by lra. lra.
  - lra.
Qed.

Lemma sign_negative (tolerance x : Q) :
  tolerance <= - x -> x < 0 -> sign tolerance x = -1.
Proof.
  intros Htol Hneg.
  destruct (sign_cases tolerance x) as [(_ & Hpos & _)|[(H & _)|(_ & [Habs|Hz])]].
  - lra.
  - exact H.
  - rewrite Qabs_neg in Habs by lra. lra.
  - lra.
Qed.

Lemma sign_null (tolerance x : Q) : x == 0 -> sign tolerance x = 0.
Proof.
  intros Hz.
  destruct (sign_cases tolerance x) as [(_ & Hpos & _)|[(_ & Hneg & _)|(H & _)]].
  - lra.
  - lra.
  - exact H.
Qed.

(** A change [sign(g) * delta] with a step [delta >= DELTA_MIN] has the sign
    of [g], when the tolerance of [sign] does not exceed [DELTA_MIN]. *)
Lemma sign_scaled (tolerance g delta : Q) :
  tolerance <= DELTA_MIN -> DELTA_MIN <= delta ->
  sign tolerance (sign tolerance g * delta) = sign tolerance g.
Proof.
  intros Htol Hdelta. pose proof DELTA_MIN_pos as Hmin.
  destruct (sign_cases tolerance g) as [(-> & _)|[(-> & _)|(-> & _)]].
  - apply sign_positive; lra.
  - apply sign_negative; lra.
  - apply sign_null. lra.
Qed.

(** C1.  The sign rule, as the code has it.  Take a store reached from
    construction (with [DELTA_MIN <= initialUpdate <= maxStep] and a zero
    previous-gradient vector) by any sequence of events, a sign tolerance of
    at most [DELTA_MIN], and a call without dropout for an index inside the
    arrays.  For RPROP+ and iRPROP+: when [change >= 0] the returned change
    has the sign of [gradients[i]], and when [change < 0] it is [0] or the
    negation of [lastWeightChange[i]].  For RPROP- and iRPROP-, which do not
    backtrack: the returned change is [sign(gradients[i])] times the new
    [lastDelta[i]] and has the sign of [gradients[i]], on a reversal too. *)
Theorem C1_sign_rule (tolerance : Q) (ty : string) (n : nat)
    (error0 initialUpdate ms : Q) (scope : option Q) (evs : list event)
    (gradients : list Q) (index : nat) (dropoutRate g lg lwc : Q) :
  tolerance <= DELTA_MIN ->
  in_bounds ms initialUpdate ->
  ~ 0 < dropoutRate ->
  gradients !! index = Some g ->
  lastGradient (run tolerance (start ty n error0 initialUpdate ms scope) evs)
    !! index = Some lg ->
  lastWeightChange
    (this (run tolerance (start ty n error0 initialUpdate ms scope) evs))
    !! index = Some lwc ->
  (ty = RPROPType.RPROPp \/ ty = RPROPType.iRPROPp ->
   exists (wc : Q) (w' : World),
     updateWeight tolerance gradients index dropoutRate
       (run tolerance (start ty n error0 initialUpdate ms scope) evs)
       = (Normal wc, w') /\
     (0 <= sign tolerance (g * lg) -> sign tolerance wc = sign tolerance g) /\
     (sign tolerance (g * lg) < 0 -> wc = 0 \/ wc = - lwc)) /\
  (ty = RPROPType.RPROPm \/ ty = RPROPType.iRPROPm ->
   exists (wc delta : Q) (w' : World),
     updateWeight tolerance gradients index dropoutRate
       (run tolerance (start ty n error0 initialUpdate ms scope) evs)
       = (Normal wc, w') /\
     lastDelta (this w') !! index = Some delta /\
     wc = sign tolerance g * delta /\
     sign tolerance wc = sign tolerance g).
Proof.
  intros Htol Hb Hd Hg Hlg Hlwc.
  pose proof (run_invariant tolerance ty n error0 initialUpdate ms scope evs Hb)
    as Hinv.
  set (w := run tolerance (start ty n error0 initialUpdate ms scope) evs) in *.
  assert (Hlt : (index < n)%nat).
  { apply lookup_lt_Some in Hlg.
    rewrite (inv_lastGradient_length _ _ _ _ _ Hinv) in Hlg. exact Hlg. }
  destruct (invariant_entries _ _ _ _ _ _ _ _ Hinv Hg Hlt)
    as (lg0 & uv & ld & lwc0 & H).
  assert (lg0 = lg) as ->.
  { pose proof (entry_lastGradient _ _ _ _ _ _ _ _ H) as E. congruence. }
  assert (lwc0 = lwc) as ->.
  { pose proof (entry_lastWeightChange _ _ _ _ _ _ _ _ H) as E. congruence. }
  pose proof (inv_updateValues _ _ _ _ _ Hinv index uv
                (entry_updateValue _ _ _ _ _ _ _ _ H)) as Huv.
  pose proof (inv_maxStep _ _ _ _ _ Hinv) as Hms.
  pose proof (inv_rpropType _ _ _ _ _ Hinv) as Hty.
  apply not_gt_false in Hd.
  split.
  - intros Hplus.
    assert (Hgrow : DELTA_MIN <= Qmin (uv * POSITIVE_ETA) ms)
      by apply (grow_in_bounds ms uv Huv).
    destruct Huv as [Hlo Hhi].
    destruct Hplus as [-> | ->].
    + rewrite (updateWeight_RPROPp_run _ _ _ _ _ _ _ _ _ _ Hty Hd H).
      unfold plus_rule. rewrite Hms.
      destruct (change_tests tolerance (g * lg)) as
        [(Hc & _ & ->)|[(Hc & _ & -> & ->)|(Hc & -> & -> & _)]];
        eexists _, _; (split; [reflexivity|]); rewrite Hc; split;
        try (intros; lra).
      * intros _. apply sign_scaled; assumption.
      * intros _. right. reflexivity.
      * intros _. apply sign_scaled; assumption.
    + rewrite (updateWeight_iRPROPp_run _ _ _ _ _ _ _ _ _ _ Hty Hd H).
      unfold iplus_rule. rewrite Hms.
      destruct (change_tests tolerance (g * lg)) as
        [(Hc & _ & ->)|[(Hc & _ & -> & ->)|(Hc & -> & -> & _)]];
        eexists _, _; (split; [reflexivity|]); rewrite Hc; split;
        try (intros; lra).
      * intros _. apply sign_scaled; assumption.
      * intros _. destruct (error_gt _ _); [right|left]; reflexivity.
      * intros _. apply sign_scaled; assumption.
  - intros Hminus.
    assert (Hmv : minus_variant ty = true)
      by (destruct Hminus as [-> | ->]; reflexivity).
    assert (Hnew : in_bounds ms (snd (minus_rule tolerance ms g lg ld))).
    { apply minus_rule_bounds; [destruct Huv; lra|].
      pose proof (inv_lastDelta _ _ _ _ _ Hinv Hmv index ld
                    (entry_lastDelta _ _ _ _ _ _ _ _ H)) as Hcase.
      destruct (touched index evs); [left; exact Hcase|right].
      destruct Hcase as [-> Hz]. rewrite Hlg in Hz. injection Hz as ->.
      split; reflexivity. }
    rewrite <- Hty in Hmv.
    rewrite (updateWeight_minus_run _ _ _ _ _ _ _ _ _ _ Hmv Hd H).
    rewrite Hms. unfold minus_rule in *. cbn [snd] in Hnew.
    eexists _, _, _. split; [reflexivity|].
    cbn [updated this lastDelta].
    rewrite list_lookup_insert_eq by (eapply lookup_lt_Some; apply H).
    split; [reflexivity|]. split; [reflexivity|].
    apply sign_scaled; [assumption|apply Hnew].
Qed.

Lemma C1_sign_rule_witness :
  (RPROPType.RPROPp = RPROPType.RPROPp \/ RPROPType.RPROPp = RPROPType.iRPROPp ->
   exists (wc : Q) (w' : World),
     updateWeight DEFAULT_ZERO_TOLERANCE [-1] 0 0
       (run DEFAULT_ZERO_TOLERANCE
          (start RPROPType.RPROPp 1 0 DEFAULT_INITIAL_UPDATE DEFAULT_MAX_STEP None)
          [UpdateWeight [1] 0 0; UpdateWeight [1] 0 0])
       = (Normal wc, w') /\
     (0 <= sign DEFAULT_ZERO_TOLERANCE (-1 * 1) ->
      sign DEFAULT_ZERO_TOLERANCE wc = sign DEFAULT_ZERO_TOLERANCE (-1)) /\
     (sign DEFAULT_ZERO_TOLERANCE (-1 * 1) < 0 -> wc = 0 \/ wc = - 0.12)) /\
  (RPROPType.RPROPp = RPROPType.RPROPm \/ RPROPType.RPROPp = RPROPType.iRPROPm ->
   exists (wc delta : Q) (w' : World),
     updateWeight DEFAULT_ZERO_TOLERANCE [-1] 0 0
       (run DEFAULT_ZERO_TOLERANCE
          (start RPROPType.RPROPp 1 0 DEFAULT_INITIAL_UPDATE DEFAULT_MAX_STEP None)
          [UpdateWeight [1] 0 0; UpdateWeight [1] 0 0])
       = (Normal wc, w') /\
     lastDelta (this w') !! 0%nat = Some delta /\
     wc = sign DEFAULT_ZERO_TOLERANCE (-1) * delta /\
     sign DEFAULT_ZERO_TOLERANCE wc = sign DEFAULT_ZERO_TOLERANCE (-1)).
Proof.
  apply (C1_sign_rule DEFAULT_ZERO_TOLERANCE RPROPType.RPROPp 1 0
           DEFAULT_INITIAL_UPDATE DEFAULT_MAX_STEP None
           [UpdateWeight [1] 0 0; UpdateWeight [1] 0 0] [-1] 0 0 (-1) 1 0.12).
  - vm_compute. discriminate.
  - split; vm_compute; discriminate.
  - vm_compute. discriminate.
  - reflexivity.
  - reflexivity.
  - reflexivity.
Defined.

(** C1, as stated, fails for RPROP-: after two iterations with gradient [1]
    the recorded change is [0.0000012]; a third call with gradient [-1] is a
    reversal ([change < 0]) and returns [-0.000001], which is neither [0] nor
    the negation of the recorded change. *)
Lemma C1_counterexample :
  rpropType (this rpropm_after_two_steps) = RPROPType.RPROPm /\
  lastGradient rpropm_after_two_steps !! 0%nat = Some 1 /\
  lastWeightChange (this rpropm_after_two_steps) !! 0%nat = Some 0.0000012 /\
  sign DEFAULT_ZERO_TOLERANCE (-1 * 1) < 0 /\
  fst (updateWeight DEFAULT_ZERO_TOLERANCE [-1] 0 0 rpropm_after_two_steps)
    = Normal (-0.000001) /\
  ~ -0.000001 == 0 /\
  ~ -0.000001 == - 0.0000012.
Proof.
  repeat split; try reflexivity; vm_compute; discriminate.
Qed.

(** ** RPROP- never looks at [updateValues] *)

Lemma ignores_ret {A} (a : A) : ignores_updateValues (ret a).
Proof. intros uvs w. reflexivity. Qed.

Lemma ignores_element (a : list Q) (index : nat) :
  ignores_updateValues (element a index).
Proof. intros uvs w. unfold element. destruct (a !! index); reflexivity. Qed.

Lemma ignores_lastGradient_at (index : nat) :
  ignores_updateValues (lastGradient_at index).
Proof.
  intros uvs w. unfold lastGradient_at, element. cbn [swap_updateValues lastGradient].
  destruct (lastGradient w !! index); reflexivity.
Qed.

Lemma ignores_this_lastDelta (index : nat) :
  ignores_updateValues (this_lastDelta index).
Proof.
  intros uvs w. unfold this_lastDelta, element.
  cbn [swap_updateValues this with_updateValues lastDelta].
  destruct (lastDelta (this w) !! index); reflexivity.
Qed.

Lemma ignores_maxStep : ignores_updateValues (field maxStep).
Proof. intros uvs w. reflexivity. Qed.

Lemma ignores_set_lastGradient (index : nat) (v : Q) :
  ignores_updateValues (set_lastGradient index v).
Proof.
  intros uvs w. unfold set_lastGradient. cbn [swap_updateValues lastGradient].
  destruct (assign _ _ _); reflexivity.
Qed.

Lemma ignores_set_lastDelta (index : nat) (v : Q) :
  ignores_updateValues (set_lastDelta index v).
Proof.
  intros uvs w. unfold set_lastDelta.
  cbn [swap_updateValues this with_updateValues lastDelta].
  destruct (assign _ _ _); reflexivity.
Qed.

Lemma ignores_set_lastWeightChange (index : nat) (v : Q) :
  ignores_updateValues (set_lastWeightChange index v).
Proof.
  intros uvs w. unfold set_lastWeightChange.
  cbn [swap_updateValues this with_updateValues lastWeightChange].
  destruct (assign _ _ _); reflexivity.
Qed.

Lemma ignores_bind {A B} (m : Js A) (k : A -> Js B) :
  ignores_updateValues m -> (forall a, ignores_updateValues (k a)) ->
  ignores_updateValues (bind m k).
Proof.
  intros Hm Hk uvs w. unfold bind. rewrite Hm.
  destruct (m w) as [[a|e|] w1]; cbn [fst snd]; [apply Hk|reflexivity..].
Qed.

Lemma ignores_updateWeightMinus (tolerance : Q) (gradients : list Q)
    (index : nat) :
  ignores_updateValues (updateWeightMinus tolerance gradients index).
Proof.
  unfold updateWeightMinus.
  repeat first
    [ apply ignores_ret | apply ignores_element | apply ignores_lastGradient_at
    | apply ignores_this_lastDelta | apply ignores_maxStep
    | apply ignores_set_lastGradient | apply ignores_set_lastDelta
    | apply ignores_bind; [|intros ?]
    | match goal with
      | |- ignores_updateValues (if ?b then _ else _) => destruct b
      end
    | progress cbv zeta ].
Qed.

Lemma updateWeight_RPROPm_unfold (tolerance : Q) (gradients : list Q)
    (index : nat) (dropoutRate : Q) (w : World) :
  rpropType (this w) = RPROPType.RPROPm ->
  js_gt dropoutRate 0 = false ->
  updateWeight tolerance gradients index dropoutRate w =
    bind (updateWeightMinus tolerance gradients index)
      (fun weightChange =>
         bind (set_lastWeightChange index weightChange)
           (fun _ => ret weightChange)) w.
Proof.
  intros Hty Hd. js_dispatch Hty Hd. reflexivity.
Qed.

Lemma updateWeight_RPROPm_ignores (tolerance : Q) (gradients : list Q)
    (index : nat) (dropoutRate : Q) (uvs : list Q) (w : World) :
  rpropType (this w) = RPROPType.RPROPm ->
  updateWeight tolerance gradients index dropoutRate (swap_updateValues uvs w)
  = (fst (updateWeight tolerance gradients index dropoutRate w),
     swap_updateValues uvs
       (snd (updateWeight tolerance gradients index dropoutRate w))).
Proof.
  intros Hty.
  destruct (js_gt dropoutRate 0) eqn:Hd.
  - apply js_gt_true in Hd.
    rewrite !updateWeight_dropout_run by assumption. reflexivity.
  - rewrite (updateWeight_RPROPm_unfold _ _ _ _ (swap_updateValues uvs w)),
      (updateWeight_RPROPm_unfold _ _ _ _ w) by assumption.
    apply (ignores_bind (updateWeightMinus tolerance gradients index)).
    + apply ignores_updateWeightMinus.
    + intros a. apply ignores_bind.
      * apply ignores_set_lastWeightChange.
      * intros _. apply ignores_ret.
Qed.

Lemma step_RPROPm_ignores (tolerance : Q) (uvs : list Q) (w : World)
    (ev : event) :
  rpropType (this w) = RPROPType.RPROPm ->
  step tolerance (swap_updateValues uvs w) ev
  = swap_updateValues uvs (step tolerance w ev).
Proof.
  intros Hty. destruct ev as [e|gradients index dropoutRate|]; cbn [step].
  - reflexivity.
  - rewrite updateWeight_RPROPm_ignores by assumption. reflexivity.
  - reflexivity.
Qed.

Lemma run_rpropType (tolerance : Q) (w : World) (evs : list event) :
  rpropType (this (run tolerance w evs)) = rpropType (this w).
Proof.
  induction evs as [|ev evs IH] using rev_ind; [reflexivity|].
  rewrite run_snoc.
  destruct (step_frame tolerance (run tolerance w evs) ev) as (-> & _).
  exact IH.
Qed.

Lemma run_RPROPm_ignores (tolerance : Q) (uvs : list Q) (w : World)
    (evs : list event) :
  rpropType (this w) = RPROPType.RPROPm ->
  run tolerance (swap_updateValues uvs w) evs
  = swap_updateValues uvs (run tolerance w evs).
Proof.
  intros Hty. induction evs as [|ev evs IH] using rev_ind; [reflexivity|].
  rewrite !run_snoc, IH. apply step_RPROPm_ignores.
  rewrite run_rpropType. exact Hty.
Qed.

Lemma start_swap (n : nat) (error0 iu1 iu2 ms : Q) (scope : option Q) :
  start RPROPType.RPROPm n error0 iu2 ms scope
  = swap_updateValues (replicate (length (newFloatArray n)) iu2)
      (start RPROPType.RPROPm n error0 iu1 ms scope).
Proof. reflexivity. Qed.

Lemma first_delta : Qmax (0 * NEGATIVE_ETA) DELTA_MIN == 0.000001.
Proof. reflexivity. Qed.

(** C10.  RPROP- and [initialUpdate], as the code has it.  The constructor
    sets every [lastDelta[i]] to [0], whatever [initialUpdate] is.  Two
    RPROP- strategies that differ in [initialUpdate] only answer every call,
    after any common sequence of events, with the same completion.  And a
    call without dropout for an index whose [lastDelta] and previous gradient
    are still [0] sets [lastDelta[i]] to [max(0 * NEGATIVE_ETA, DELTA_MIN)],
    which is [0.000001], and returns [sign(gradients[i])] times it: of
    magnitude [0.000001] when the sign of the gradient is not zero, and [0]
    when it is. *)
Theorem C10_RPROPm_ignores_initialUpdate (tolerance : Q) (n : nat)
    (error0 iu1 iu2 ms : Q) (scope : option Q) (evs : list event)
    (gradients' : list Q) (index' : nat) (dropoutRate' : Q)
    (w : World) (gradients : list Q) (index : nat) (dropoutRate g uv lwc : Q) :
  rpropType (this w) = RPROPType.RPROPm ->
  ~ 0 < dropoutRate ->
  entries gradients index w g 0 uv 0 lwc ->
  lastDelta (constructor n error0 iu1 ms) = replicate n 0 /\
  fst (updateWeight tolerance gradients' index' dropoutRate'
         (run tolerance (start RPROPType.RPROPm n error0 iu1 ms scope) evs))
  = fst (updateWeight tolerance gradients' index' dropoutRate'
           (run tolerance (start RPROPType.RPROPm n error0 iu2 ms scope) evs)) /\
  exists (wc delta : Q) (w' : World),
    updateWeight tolerance gradients index dropoutRate w = (Normal wc, w') /\
    lastDelta (this w') !! index = Some delta /\
    delta = Qmax (0 * NEGATIVE_ETA) DELTA_MIN /\
    delta == 0.000001 /\
    wc = sign tolerance g * delta /\
    (sign tolerance g <> 0 -> Qabs wc == 0.000001) /\
    (sign tolerance g = 0 -> wc == 0).
Proof.
  intros Hty Hd H. split; [|split].
  - unfold constructor, newFloatArray. cbn [lastDelta].
    rewrite length_replicate. reflexivity.
  - rewrite (start_swap n error0 iu1 iu2 ms scope).
    rewrite run_RPROPm_ignores by reflexivity.
    rewrite updateWeight_RPROPm_ignores; [reflexivity|].
    rewrite run_rpropType. reflexivity.
  - rewrite (updateWeight_RPROPm_run _ _ _ _ _ _ _ _ _ _ Hty (not_gt_false _ Hd) H).
    unfold minus_rule.
    assert (Hchange : sign tolerance (g * 0) = 0) by (apply sign_null; lra).
    rewrite Hchange.
    replace (js_gt 0 0) with false by reflexivity.
    eexists _, _, _. split; [reflexivity|].
    cbn [updated this lastDelta].
    rewrite list_lookup_insert_eq by (eapply lookup_lt_Some; apply H).
    split; [reflexivity|]. split; [reflexivity|].
    pose proof first_delta as Hdelta.
    split; [exact Hdelta|]. split; [reflexivity|].
    destruct (sign_cases tolerance g) as [(-> & _)|[(-> & _)|(-> & _)]].
    + split; [intros _|discriminate].
      rewrite Qabs_pos by lra. lra.
    + split; [intros _|discriminate].
      rewrite Qabs_neg by lra. lra.
    + split; [intros Hne; contradiction Hne; reflexivity|intros _; lra].
Qed.

Lemma C10_RPROPm_ignores_initialUpdate_witness :
  lastDelta (constructor 1 0 0.1 50) = replicate 1 0 /\
  fst (updateWeight DEFAULT_ZERO_TOLERANCE [1] 0 0
         (run DEFAULT_ZERO_TOLERANCE (start RPROPType.RPROPm 1 0 0.1 50 None)
            [UpdateWeight [1] 0 0]))
  = fst (updateWeight DEFAULT_ZERO_TOLERANCE [1] 0 0
           (run DEFAULT_ZERO_TOLERANCE (start RPROPType.RPROPm 1 0 7 50 None)
              [UpdateWeight [1] 0 0])) /\
  exists (wc delta : Q) (w' : World),
    updateWeight DEFAULT_ZERO_TOLERANCE [-3] 0 0
      (start RPROPType.RPROPm 1 0 7 50 None) = (Normal wc, w') /\
    lastDelta (this w') !! 0%nat = Some delta /\
    delta = Qmax (0 * NEGATIVE_ETA) DELTA_MIN /\
    delta == 0.000001 /\
    wc = sign DEFAULT_ZERO_TOLERANCE (-3) * delta /\
    (sign DEFAULT_ZERO_TOLERANCE (-3) <> 0 -> Qabs wc == 0.000001) /\
    (sign DEFAULT_ZERO_TOLERANCE (-3) = 0 -> wc == 0).
Proof.
  apply (C10_RPROPm_ignores_initialUpdate DEFAULT_ZERO_TOLERANCE 1 0 0.1 7 50
           None [UpdateWeight [1] 0 0] [1] 0 0
           (start RPROPType.RPROPm 1 0 7 50 None) [-3] 0 0 (-3) 7 0).
  - reflexivity.
  - vm_compute. discriminate.
  - split; reflexivity.
Defined.

(** C10, as stated, fails: the first call of an RPROP- strategy with gradient
    [0] returns a change of magnitude [0], not [0.000001]. *)
Lemma C10_counterexample :
  lastGradient
    (start RPROPType.RPROPm 1 0 DEFAULT_INITIAL_UPDATE DEFAULT_MAX_STEP None)
    !! 0%nat = Some 0 /\
  exists wc : Q,
    fst (updateWeight DEFAULT_ZERO_TOLERANCE [0] 0 0
           (start RPROPType.RPROPm 1 0 DEFAULT_INITIAL_UPDATE DEFAULT_MAX_STEP
              None))
    = Normal wc /\
    wc == 0 /\
    ~ Qabs wc == 0.000001.
Proof.
  split; [reflexivity|].
  eexists. split; [reflexivity|]. split; [reflexivity|].
  vm_compute. discriminate.
Qed.

Lemma plus_rule_neutral (tolerance ms g lg uv lwc : Q) :
  sign tolerance (g * lg) = 0 ->
  plus_rule tolerance ms g lg uv lwc = (sign tolerance g * uv, uv, g).
Proof. intros H. unfold plus_rule. rewrite H. reflexivity. Qed.

Lemma plus_rule_same_sign (tolerance ms g lg uv lwc : Q) :
  sign tolerance (g * lg) = 1 ->
  plus_rule tolerance ms g lg uv lwc =
    (sign tolerance g * Qmin (uv * POSITIVE_ETA) ms,
     Qmin (uv * POSITIVE_ETA) ms, g).
Proof. intros H. unfold plus_rule. rewrite H. reflexivity. Qed.

(** C3.  The RPROP+ scenario, as the code has it: one weight,
    [initialUpdate = 0.1], previous gradient [0], two calls with gradient
    [1].  The first call returns [+0.1] (the change has the sign of the
    gradient entry), the second returns [0.12], and after it
    [updateValues[0]] is [0.1 * 1.2 = 0.12].  This holds for every sign
    tolerance up to [1]. *)
Theorem C3_RPROPp_two_steps (tolerance error0 : Q) (scope : option Q) :
  tolerance <= 1 ->
  exists (c1 : Q) (w1 : World) (c2 : Q) (w2 : World) (uv2 : Q),
    updateWeight tolerance [1] 0 0
      (start RPROPType.RPROPp 1 error0 0.1 DEFAULT_MAX_STEP scope)
      = (Normal c1, w1) /\
    c1 == 0.1 /\
    updateWeight tolerance [1] 0 0 w1 = (Normal c2, w2) /\
    c2 == 0.12 /\
    updateValues (this w2) !! 0%nat = Some uv2 /\
    uv2 == 0.1 * 1.2 /\
    uv2 == 0.12.
Proof.
  intros Htol.
  assert (Hs1 : sign tolerance 1 = 1) by (apply sign_positive; lra).
  assert (Hs0 : sign tolerance (1 * 0) = 0) by (apply sign_null; lra).
  assert (Hs11 : sign tolerance (1 * 1) = 1) by (apply sign_positive; lra).
  eexists _, _, _, _, _.
  split.
  { rewrite (updateWeight_RPROPp_run tolerance [1] 0 0 _ 1 0 0.1 0 0);
      [|reflexivity|reflexivity|split; reflexivity].
    rewrite (plus_rule_neutral _ _ _ _ _ _ Hs0), Hs1. reflexivity. }
  split; [reflexivity|].
  split.
  { rewrite (updateWeight_RPROPp_run tolerance [1] 0 0 _ 1 1 0.1 0 (1 * 0.1));
      [|reflexivity|reflexivity|split; reflexivity].
    rewrite (plus_rule_same_sign _ _ _ _ _ _ Hs11), Hs1. reflexivity. }
  split; [reflexivity|].
  split; [reflexivity|].
  split; reflexivity.
Qed.

Lemma C3_RPROPp_two_steps_witness :
  exists (c1 : Q) (w1 : World) (c2 : Q) (w2 : World) (uv2 : Q),
    updateWeight DEFAULT_ZERO_TOLERANCE [1] 0 0
      (start RPROPType.RPROPp 1 0 0.1 DEFAULT_MAX_STEP None)
      = (Normal c1, w1) /\
    c1 == 0.1 /\
    updateWeight DEFAULT_ZERO_TOLERANCE [1] 0 0 w1 = (Normal c2, w2) /\
    c2 == 0.12 /\
    updateValues (this w2) !! 0%nat = Some uv2 /\
    uv2 == 0.1 * 1.2 /\
    uv2 == 0.12.
Proof.
  apply (C3_RPROPp_two_steps DEFAULT_ZERO_TOLERANCE 0 None).
  vm_compute. discriminate.
Defined.

(** C3, as stated, fails: the first call of the scenario returns [0.1], not
    [-0.1]. *)
Lemma C3_counterexample :
  fst (updateWeight DEFAULT_ZERO_TOLERANCE [1] 0 0
         (start RPROPType.RPROPp 1 0 0.1 DEFAULT_MAX_STEP None))
  = Normal 0.1 /\
  ~ 0.1 == -0.1.
Proof. split; [reflexivity|vm_compute; discriminate]. Qed.

(** ** The free identifier [q] *)

(** No event writes [this.q]. *)
Lemma run_this_q (tolerance : Q) (w : World) (evs : list event) :
  q (this (run tolerance w evs)) = q (this w).
Proof.
  induction evs as [|ev evs IH] using rev_ind; [reflexivity|].
  rewrite run_snoc.
  destruct (step_frame tolerance (run tolerance w evs) ev) as (_ & _ & -> & _).
  exact IH.
Qed.

(** With nothing bound to [q], every ARPROP call that reaches the rule
    throws. *)
Lemma ARPROP_unbound_q (tolerance : Q) (gradients : list Q) (index : nat)
    (dropoutRate : Q) (w : World) (g lg uv ld lwc : Q) :
  rpropType (this w) = RPROPType.ARPROP ->
  scope_q w = None ->
  ~ 0 < dropoutRate ->
  entries gradients index w g lg uv ld lwc ->
  fst (updateWeight tolerance gradients index dropoutRate w)
    = Throw (ReferenceError "q").
Proof.
  intros Hty Hsc Hd H.
  rewrite (updateWeight_ARPROP_run _ _ _ _ _ _ _ _ _ _ Hty (not_gt_false _ Hd) H).
  destruct (plus_rule _ _ _ _ _ _) as [[wc delta] lg'].
  unfold jacobi_finish, updated. cbn [scope_q]. rewrite Hsc. reflexivity.
Qed.

Lemma scope_ret {A} (a : A) : ignores_scope (ret a).
Proof. intros sc w. reflexivity. Qed.

Lemma scope_throw {A} (e : JsError) : ignores_scope (@throw A e).
Proof. intros sc w. reflexivity. Qed.

Lemma scope_field {A} (f : ResilientPropagation -> A) : ignores_scope (field f).
Proof. intros sc w. reflexivity. Qed.

Lemma scope_element (a : list Q) (index : nat) : ignores_scope (element a index).
Proof. intros sc w. unfold element. destruct (a !! index); reflexivity. Qed.

Lemma scope_lastGradient_at (index : nat) : ignores_scope (lastGradient_at index).
Proof.
  intros sc w. unfold lastGradient_at, element. cbn [swap_scope lastGradient].
  destruct (lastGradient w !! index); reflexivity.
Qed.

Lemma scope_this_updateValues (index : nat) :
  ignores_scope (this_updateValues index).
Proof.
  intros sc w. unfold this_updateValues, element. cbn [swap_scope this].
  destruct (updateValues (this w) !! index); reflexivity.
Qed.

Lemma scope_this_lastDelta (index : nat) : ignores_scope (this_lastDelta index).
Proof.
  intros sc w. unfold this_lastDelta, element. cbn [swap_scope this].
  destruct (lastDelta (this w) !! index); reflexivity.
Qed.

Lemma scope_this_lastWeightChange (index : nat) :
  ignores_scope (this_lastWeightChange index).
Proof.
  intros sc w. unfold this_lastWeightChange, element. cbn [swap_scope this].
  destruct (lastWeightChange (this w) !! index); reflexivity.
Qed.

Lemma scope_set_updateValues (index : nat) (v : Q) :
  ignores_scope (set_updateValues index v).
Proof.
  intros sc w. unfold set_updateValues. cbn [swap_scope this].
  destruct (assign _ _ _); reflexivity.
Qed.

Lemma scope_set_lastDelta (index : nat) (v : Q) :
  ignores_scope (set_lastDelta index v).
Proof.
  intros sc w. unfold set_lastDelta. cbn [swap_scope this].
  destruct (assign _ _ _); reflexivity.
Qed.

Lemma scope_set_lastWeightChange (index : nat) (v : Q) :
  ignores_scope (set_lastWeightChange index v).
Proof.
  intros sc w. unfold set_lastWeightChange. cbn [swap_scope this].
  destruct (assign _ _ _); reflexivity.
Qed.

Lemma scope_set_lastGradient (index : nat) (v : Q) :
  ignores_scope (set_lastGradient index v).
Proof.
  intros sc w. unfold set_lastGradient. cbn [swap_scope lastGradient].
  destruct (assign _ _ _); reflexivity.
Qed.

Lemma scope_bind {A B} (m : Js A) (k : A -> Js B) :
  ignores_scope m -> (forall a, ignores_scope (k a)) -> ignores_scope (bind m k).
Proof.
  intros Hm Hk sc w. unfold bind. rewrite Hm.
  destruct (m w) as [[a|e|] w1]; cbn [fst snd]; [apply Hk|reflexivity..].
Qed.

Create HintDb scope.

#[local] Hint Resolve scope_ret scope_throw scope_field scope_element
  scope_lastGradient_at scope_this_updateValues scope_this_lastDelta
  scope_this_lastWeightChange scope_set_updateValues scope_set_lastDelta
  scope_set_lastWeightChange scope_set_lastGradient : scope.

Ltac scope_walk :=
  repeat first
    [ solve [auto with scope]
    | apply scope_bind; [|intros ?]
    | match goal with
      | |- ignores_scope (if ?b then _ else _) => destruct b
      end
    | progress cbv zeta ].

(** On every tag but ARPROP, [updateWeight] does not depend on what [q] is
    bound to, and leaves the binding alone. *)
Lemma updateWeight_unfold (tolerance : Q) (gradients : list Q) (index : nat)
    (dropoutRate : Q) (w : World) :
  js_gt dropoutRate 0 = false ->
  updateWeight tolerance gradients index dropoutRate w =
    bind (switch tolerance (rpropType (this w)) gradients index)
      (fun weightChange =>
         bind (set_lastWeightChange index weightChange)
           (fun _ => ret weightChange)) w.
Proof.
  intros Hd. unfold updateWeight. rewrite Hd. reflexivity.
Qed.

Lemma updateWeight_ignores_scope (tolerance : Q) (gradients : list Q)
    (index : nat) (dropoutRate : Q) (scope : option Q) (w : World) :
  rpropType (this w) <> RPROPType.ARPROP ->
  updateWeight tolerance gradients index dropoutRate (swap_scope scope w)
  = (fst (updateWeight tolerance gradients index dropoutRate w),
     swap_scope scope (snd (updateWeight tolerance gradients index dropoutRate w))).
Proof.
  intros Hty. apply String.eqb_neq in Hty.
  destruct (js_gt dropoutRate 0) eqn:Hd.
  - apply js_gt_true in Hd.
    rewrite !updateWeight_dropout_run by assumption. reflexivity.
  - rewrite !updateWeight_unfold by assumption.
    cbn [swap_scope this].
    change (mkWorld (this w) (lastGradient w) scope) with (swap_scope scope w).
    apply scope_bind.
    + unfold switch. rewrite Hty.
      unfold updateWeightPlus, updateWeightMinus, updateiWeightPlus,
        updateiWeightMinus.
      scope_walk.
    + intros a. scope_walk.
Qed.

(** C6.  What the code does where the claim expects a counter owned by the
    strategy: the constructor sets [this.q = 1], but the ARPROP rule names
    the free identifier [q].  With nothing bound to [q] the call throws a
    [ReferenceError], whether the error grew or not.  With a variable [q]
    of value [3] in scope and the error grown, the call returns
    [(1 / (2 * 3)) * delta] and sets that variable to [4], while [this.q]
    stays [1] and is not what divides the step. *)
Theorem C6_ARPROP_counter_is_a_free_identifier :
  q (constructor 1 0 DEFAULT_INITIAL_UPDATE DEFAULT_MAX_STEP) = 1 /\
  fst (updateWeight DEFAULT_ZERO_TOLERANCE [1] 0 0
         (start RPROPType.ARPROP 1 0 DEFAULT_INITIAL_UPDATE DEFAULT_MAX_STEP None))
    = Throw (ReferenceError "q") /\
  fst (updateWeight DEFAULT_ZERO_TOLERANCE [1] 0 0 (arprop_error_grew None))
    = Throw (ReferenceError "q") /\
  exists (wc : Q) (w' : World),
    updateWeight DEFAULT_ZERO_TOLERANCE [1] 0 0 (arprop_error_grew (Some 3))
      = (Normal wc, w') /\
    wc == (1 / (2 * 3)) * DEFAULT_INITIAL_UPDATE /\
    ~ wc == (1 / (2 * q (this (arprop_error_grew (Some 3)))))
            * DEFAULT_INITIAL_UPDATE /\
    scope_q w' = Some (3 + 1) /\
    q (this w') = 1.
Proof.
  split; [reflexivity|]. split; [reflexivity|]. split; [reflexivity|].
  eexists _, _. split; [reflexivity|].
  split; [reflexivity|]. split; [vm_compute; discriminate|].
  split; reflexivity.
Qed.

(** C9.  What the code does where the claim expects no hidden state: two
    ARPROP calls with the same arguments, on stores with the same strategy
    object (its [q] field included) and the same previous-gradient array,
    return different changes when the variable [q] of the enclosing scope
    differs, and one of them throws when that variable does not exist. *)
Theorem C9_ARPROP_depends_on_free_identifier :
  this (arprop_error_grew (Some 1)) = this (arprop_error_grew (Some 2)) /\
  this (arprop_error_grew (Some 1)) = this (arprop_error_grew None) /\
  lastGradient (arprop_error_grew (Some 1))
    = lastGradient (arprop_error_grew (Some 2)) /\
  lastGradient (arprop_error_grew (Some 1))
    = lastGradient (arprop_error_grew None) /\
  fst (updateWeight DEFAULT_ZERO_TOLERANCE [1] 0 0 (arprop_error_grew None))
    = Throw (ReferenceError "q") /\
  exists a b : Q,
    fst (updateWeight DEFAULT_ZERO_TOLERANCE [1] 0 0 (arprop_error_grew (Some 1)))
      = Normal a /\
    fst (updateWeight DEFAULT_ZERO_TOLERANCE [1] 0 0 (arprop_error_grew (Some 2)))
      = Normal b /\
    a == 0.05 /\ b == 0.025 /\ ~ a == b.
Proof.
  repeat (split; [reflexivity|]).
  eexists _, _. repeat (split; [reflexivity|]).
  vm_compute. discriminate.
Qed.

(** * Further properties of [ResilientPropagation] *)

(** ** A call writes one index *)

Lemma same_elsewhere_refl (index : nat) (w : World) : same_elsewhere index w w.
Proof. split; reflexivity. Qed.

Lemma same_elsewhere_trans (index : nat) (w1 w2 w3 : World) :
  same_elsewhere index w1 w2 -> same_elsewhere index w2 w3 ->
  same_elsewhere index w1 w3.
Proof.
  intros [A1 A2 A3 A4] [B1 B2 B3 B4].
  split; intros j Hj.
  - rewrite B1, A1 by assumption. reflexivity.
  - rewrite B2, A2 by assumption. reflexivity.
  - rewrite B3, A3 by assumption. reflexivity.
  - rewrite B4, A4 by assumption. reflexivity.
Qed.

Lemma assign_elsewhere (a l : list Q) (index : nat) (v : Q) (j : nat) :
  assign a index v = Some l -> j <> index -> l !! j = a !! j.
Proof.
  unfold assign. destruct (decide _); [|discriminate].
  intros [= <-] Hj. apply list_lookup_insert_ne. congruence.
Qed.

Lemma only_ret {A} (index : nat) (a : A) : writes_only_at index (ret a).
Proof. intros w. apply same_elsewhere_refl. Qed.

Lemma only_throw {A} (index : nat) (e : JsError) :
  writes_only_at index (@throw A e).
Proof. intros w. apply same_elsewhere_refl. Qed.

Lemma only_unrepresented {A} (index : nat) :
  writes_only_at index (@unrepresented A).
Proof. intros w. apply same_elsewhere_refl. Qed.

Lemma only_field {A} (index : nat) (f : ResilientPropagation -> A) :
  writes_only_at index (field f).
Proof. intros w. apply same_elsewhere_refl. Qed.

Lemma only_element (index : nat) (a : list Q) (i : nat) :
  writes_only_at index (element a i).
Proof. intros w. rewrite element_snd. apply same_elsewhere_refl. Qed.

Lemma only_this_updateValues (index i : nat) :
  writes_only_at index (this_updateValues i).
Proof.
  intros w. unfold this_updateValues. rewrite element_snd.
  apply same_elsewhere_refl.
Qed.

Lemma only_this_lastDelta (index i : nat) :
  writes_only_at index (this_lastDelta i).
Proof.
  intros w. unfold this_lastDelta. rewrite element_snd.
  apply same_elsewhere_refl.
Qed.

Lemma only_this_lastWeightChange (index i : nat) :
  writes_only_at index (this_lastWeightChange i).
Proof.
  intros w. unfold this_lastWeightChange. rewrite element_snd.
  apply same_elsewhere_refl.
Qed.

Lemma only_lastGradient_at (index i : nat) :
  writes_only_at index (lastGradient_at i).
Proof.
  intros w. unfold lastGradient_at. rewrite element_snd.
  apply same_elsewhere_refl.
Qed.

Lemma only_set_updateValues (index : nat) (v : Q) :
  writes_only_at index (set_updateValues index v).
Proof.
  intros w. unfold set_updateValues.
  destruct (assign _ _ _) as [l|] eqn:Ha; [|apply same_elsewhere_refl].
  split; intros j Hj; try reflexivity.
  exact (assign_elsewhere _ _ _ _ _ Ha Hj).
Qed.

Lemma only_set_lastDelta (index : nat) (v : Q) :
  writes_only_at index (set_lastDelta index v).
Proof.
  intros w. unfold set_lastDelta.
  destruct (assign _ _ _) as [l|] eqn:Ha; [|apply same_elsewhere_refl].
  split; intros j Hj; try reflexivity.
  exact (assign_elsewhere _ _ _ _ _ Ha Hj).
Qed.

Lemma only_set_lastWeightChange (index : nat) (v : Q) :
  writes_only_at index (set_lastWeightChange index v).
Proof.
  intros w. unfold set_lastWeightChange.
  destruct (assign _ _ _) as [l|] eqn:Ha; [|apply same_elsewhere_refl].
  split; intros j Hj; try reflexivity.
  exact (assign_elsewhere _ _ _ _ _ Ha Hj).
Qed.

Lemma only_set_lastGradient (index : nat) (v : Q) :
  writes_only_at index (set_lastGradient index v).
Proof.
  intros w. unfold set_lastGradient.
  destruct (assign _ _ _) as [l|] eqn:Ha; [|apply same_elsewhere_refl].
  split; intros j Hj; try reflexivity.
  exact (assign_elsewhere _ _ _ _ _ Ha Hj).
Qed.

Lemma only_read_q (index : nat) : writes_only_at index read_q.
Proof. intros w. unfold read_q. destruct (scope_q w); apply same_elsewhere_refl. Qed.

Lemma only_write_q (index : nat) (v : Q) : writes_only_at index (write_q v).
Proof.
  intros w. unfold write_q.
  destruct (scope_q w); [split; reflexivity|apply same_elsewhere_refl].
Qed.

Lemma only_bind {A B} (index : nat) (m : Js A) (k : A -> Js B) :
  writes_only_at index m -> (forall a, writes_only_at index (k a)) ->
  writes_only_at index (bind m k).
Proof.
  intros Hm Hk w. unfold bind.
  specialize (Hm w). destruct (m w) as [[a|e|] w1]; cbn [snd] in *.
  - eapply same_elsewhere_trans; [exact Hm|apply Hk].
  - exact Hm.
  - exact Hm.
Qed.

Create HintDb only.

#[local] Hint Resolve only_ret only_throw only_unrepresented only_field
  only_element only_this_updateValues only_this_lastDelta
  only_this_lastWeightChange only_lastGradient_at only_set_updateValues
  only_set_lastDelta only_set_lastWeightChange only_set_lastGradient
  only_read_q only_write_q : only.

Ltac only_walk :=
  repeat first
    [ solve [auto with only]
    | apply only_bind; [|intros ?]
    | match goal with
      | |- writes_only_at _ (if ?b then _ else _) => destruct b
      end
    | progress cbv zeta ].

Lemma only_updateWeight (tolerance : Q) (gradients : list Q) (index : nat)
    (dropoutRate : Q) :
  writes_only_at index (updateWeight tolerance gradients index dropoutRate).
Proof.
  unfold updateWeight, updateWeightPlus, updateWeightMinus, updateiWeightPlus,
    updateiWeightMinus, updateJacobiWeight.
  only_walk.
Qed.

(** X1.  A call of [updateWeight] for an index inside the arrays, whatever
    the tag and however it ends, leaves every entry of [updateValues],
    [lastDelta], [lastWeightChange] and [lastGradient] at any other index as
    it was, and leaves the four lengths as they were. *)
Theorem X1_updateWeight_writes_one_index (tolerance : Q) (gradients : list Q)
    (index : nat) (dropoutRate : Q) (w : World) (g lg uv ld lwc : Q) (j : nat) :
  entries gradients index w g lg uv ld lwc ->
  j <> index ->
  updateValues (this (snd (updateWeight tolerance gradients index dropoutRate w))) !! j
    = updateValues (this w) !! j /\
  lastDelta (this (snd (updateWeight tolerance gradients index dropoutRate w))) !! j
    = lastDelta (this w) !! j /\
  lastWeightChange
    (this (snd (updateWeight tolerance gradients index dropoutRate w))) !! j
    = lastWeightChange (this w) !! j /\
  lastGradient (snd (updateWeight tolerance gradients index dropoutRate w)) !! j
    = lastGradient w !! j /\
  length (updateValues (this (snd (updateWeight tolerance gradients index dropoutRate w))))
    = length (updateValues (this w)) /\
  length (lastDelta (this (snd (updateWeight tolerance gradients index dropoutRate w))))
    = length (lastDelta (this w)) /\
  length (lastWeightChange
            (this (snd (updateWeight tolerance gradients index dropoutRate w))))
    = length (lastWeightChange (this w)) /\
  length (lastGradient (snd (updateWeight tolerance gradients index dropoutRate w)))
    = length (lastGradient w).
Proof.
  intros _ Hj.
  destruct (only_updateWeight tolerance gradients index dropoutRate w)
    as [E1 E2 E3 E4].
  destruct (keeps_updateWeight tolerance gradients index dropoutRate w)
    as [_ _ _ _ _ _ L1 L2 L3 L4].
  repeat split; auto.
Qed.

Lemma X1_updateWeight_writes_one_index_witness :
  updateValues
    (this (snd (updateWeight DEFAULT_ZERO_TOLERANCE [1; 1] 0 0
                  rpropm_after_one_call))) !! 1%nat
    = updateValues (this rpropm_after_one_call) !! 1%nat /\
  lastDelta
    (this (snd (updateWeight DEFAULT_ZERO_TOLERANCE [1; 1] 0 0
                  rpropm_after_one_call))) !! 1%nat
    = lastDelta (this rpropm_after_one_call) !! 1%nat /\
  lastWeightChange
    (this (snd (updateWeight DEFAULT_ZERO_TOLERANCE [1; 1] 0 0
                  rpropm_after_one_call))) !! 1%nat
    = lastWeightChange (this rpropm_after_one_call) !! 1%nat /\
  lastGradient
    (snd (updateWeight DEFAULT_ZERO_TOLERANCE [1; 1] 0 0
            rpropm_after_one_call)) !! 1%nat
    = lastGradient rpropm_after_one_call !! 1%nat /\
  length (updateValues
            (this (snd (updateWeight DEFAULT_ZERO_TOLERANCE [1; 1] 0 0
                          rpropm_after_one_call))))
    = length (updateValues (this rpropm_after_one_call)) /\
  length (lastDelta
            (this (snd (updateWeight DEFAULT_ZERO_TOLERANCE [1; 1] 0 0
                          rpropm_after_one_call))))
    = length (lastDelta (this rpropm_after_one_call)) /\
  length (lastWeightChange
            (this (snd (updateWeight DEFAULT_ZERO_TOLERANCE [1; 1] 0 0
                          rpropm_after_one_call))))
    = length (lastWeightChange (this rpropm_after_one_call)) /\
  length (lastGradient
            (snd (updateWeight DEFAULT_ZERO_TOLERANCE [1; 1] 0 0
                    rpropm_after_one_call)))
    = length (lastGradient rpropm_after_one_call).
Proof.
  apply (X1_updateWeight_writes_one_index DEFAULT_ZERO_TOLERANCE [1; 1] 0 0
           rpropm_after_one_call 1 1 0.1 0.000001 0.000001 1).
  - split; reflexivity.
  - lia.
Defined.

(** ** The returned change is the recorded change *)

(** X2.  When a call without dropout returns a change, that change is what
    [lastWeightChange[index]] holds afterwards, whatever the tag. *)
Theorem X2_returned_change_is_recorded (tolerance : Q) (gradients : list Q)
    (index : nat) (dropoutRate : Q) (w w' : World) (wc : Q) :
  ~ 0 < dropoutRate ->
  updateWeight tolerance gradients index dropoutRate w = (Normal wc, w') ->
  lastWeightChange (this w') !! index = Some wc.
Proof.
  intros Hd. rewrite (updateWeight_unfold _ _ _ _ _ (not_gt_false _ Hd)).
  unfold bind.
  destruct (switch tolerance (rpropType (this w)) gradients index w)
    as [[a|e|] w1]; try discriminate.
  unfold set_lastWeightChange.
  destruct (assign (lastWeightChange (this w1)) index a) as [l|] eqn:Ha;
    [|discriminate].
  unfold ret. intros [= <- <-]. cbn [this with_lastWeightChange lastWeightChange].
  unfold assign in Ha. destruct (decide _) as [Hlt|]; [|discriminate].
  injection Ha as <-. apply list_lookup_insert_eq. exact Hlt.
Qed.

Lemma X2_returned_change_is_recorded_witness :
  lastWeightChange
    (this (snd (updateWeight DEFAULT_ZERO_TOLERANCE [-1] 0 0
                  rpropm_after_two_steps))) !! 0%nat
  = Some (-0.000001).
Proof.
  apply (X2_returned_change_is_recorded DEFAULT_ZERO_TOLERANCE [-1] 0 0
           rpropm_after_two_steps
           (snd (updateWeight DEFAULT_ZERO_TOLERANCE [-1] 0 0
                   rpropm_after_two_steps))
           (-0.000001)).
  - vm_compute. discriminate.
  - reflexivity.
Defined.

(** ** After a reversal *)

Lemma plus_rule_reversal (tolerance ms g lg uv lwc : Q) :
  sign tolerance (g * lg) < 0 ->
  plus_rule tolerance ms g lg uv lwc
  = (- lwc, Qmax (uv * NEGATIVE_ETA) DELTA_MIN, 0).
Proof.
  intros Hrev. unfold plus_rule.
  destruct (change_tests tolerance (g * lg)) as
    [(Hc & _)|[(_ & _ & -> & ->)|(Hc & _)]];
    [rewrite Hc in Hrev; lra|reflexivity|rewrite Hc in Hrev; lra].
Qed.

Lemma iplus_rule_neutral (tolerance ms g lg uv lwc e : Q) (le : errorValue) :
  sign tolerance (g * lg) = 0 ->
  iplus_rule tolerance ms g lg uv lwc e le = (sign tolerance g * uv, uv, g).
Proof. intros H. unfold iplus_rule. rewrite H. reflexivity. Qed.

(** X3.  RPROP+ backtracks and then pauses.  On a sign reversal a call
    returns [-lastWeightChange[i]], shrinks the update value to
    [max(updateValues[i] * NEGATIVE_ETA, DELTA_MIN)] and zeroes
    [lastGradient[i]]; the next call for that index, whatever its gradient,
    sees [change == 0]: it leaves the update value alone, returns
    [sign(gradient)] times it, and stores the gradient. *)
Theorem X3_RPROPp_backtracks_then_pauses (tolerance : Q)
    (gradients gradients' : list Q) (index : nat) (dropoutRate dropoutRate' : Q)
    (w : World) (g lg uv ld lwc g' : Q) :
  rpropType (this w) = RPROPType.RPROPp ->
  ~ 0 < dropoutRate ->
  ~ 0 < dropoutRate' ->
  entries gradients index w g lg uv ld lwc ->
  sign tolerance (g * lg) < 0 ->
  gradients' !! index = Some g' ->
  exists (w1 w2 : World),
    updateWeight tolerance gradients index dropoutRate w = (Normal (- lwc), w1) /\
    updateValues (this w1) !! index = Some (Qmax (uv * NEGATIVE_ETA) DELTA_MIN) /\
    lastGradient w1 !! index = Some 0 /\
    updateWeight tolerance gradients' index dropoutRate' w1
      = (Normal (sign tolerance g' * Qmax (uv * NEGATIVE_ETA) DELTA_MIN), w2) /\
    updateValues (this w2) !! index = Some (Qmax (uv * NEGATIVE_ETA) DELTA_MIN) /\
    lastGradient w2 !! index = Some g'.
Proof.
  intros Hty Hd Hd' H Hrev Hg'.
  apply not_gt_false in Hd. apply not_gt_false in Hd'.
  pose proof H as [Hg Hlg Huv Hld Hlwc].
  pose proof (lookup_lt_Some _ _ _ Hlg) as Hlg_lt.
  pose proof (lookup_lt_Some _ _ _ Huv) as Huv_lt.
  pose proof (lookup_lt_Some _ _ _ Hlwc) as Hlwc_lt.
  set (step := Qmax (uv * NEGATIVE_ETA) DELTA_MIN).
  set (w1 := updated w (<[index := step]> (updateValues (this w)))
               (lastDelta (this w)) (<[index := - lwc]> (lastWeightChange (this w)))
               (<[index := 0]> (lastGradient w)) (scope_q w)).
  assert (H1 : entries gradients' index w1 g' 0 step ld (- lwc)).
  { split; unfold w1, updated; cbn [this lastGradient updateValues lastDelta
                                      lastWeightChange];
      rewrite ?list_lookup_insert_eq by assumption; auto. }
  assert (Hs : sign tolerance (g' * 0) = 0) by (apply sign_null; lra).
  exists w1. eexists.
  split.
  { rewrite (updateWeight_RPROPp_run _ _ _ _ _ _ _ _ _ _ Hty Hd H).
    rewrite (plus_rule_reversal _ _ _ _ _ _ Hrev). reflexivity. }
  split; [apply H1|]. split; [apply H1|].
  split.
  { rewrite (updateWeight_RPROPp_run _ _ _ _ w1 _ _ _ _ _ Hty Hd' H1).
    rewrite (plus_rule_neutral _ _ _ _ _ _ Hs). reflexivity. }
  unfold updated; cbn [this lastGradient updateValues].
  rewrite !list_lookup_insert_eq
    by (unfold w1, updated; cbn [this lastGradient updateValues];
        rewrite length_insert; assumption).
  split; reflexivity.
Qed.

Lemma X3_RPROPp_backtracks_then_pauses_witness :
  exists (w1 w2 : World),
    updateWeight DEFAULT_ZERO_TOLERANCE [-1] 0 0
      (run DEFAULT_ZERO_TOLERANCE
         (start RPROPType.RPROPp 1 0 DEFAULT_INITIAL_UPDATE DEFAULT_MAX_STEP None)
         [UpdateWeight [1] 0 0; UpdateWeight [1] 0 0])
      = (Normal (- 0.12), w1) /\
    updateValues (this w1) !! 0%nat = Some (Qmax (0.12 * NEGATIVE_ETA) DELTA_MIN) /\
    lastGradient w1 !! 0%nat = Some 0 /\
    updateWeight DEFAULT_ZERO_TOLERANCE [-2] 0 0 w1
      = (Normal (sign DEFAULT_ZERO_TOLERANCE (-2)
                 * Qmax (0.12 * NEGATIVE_ETA) DELTA_MIN), w2) /\
    updateValues (this w2) !! 0%nat = Some (Qmax (0.12 * NEGATIVE_ETA) DELTA_MIN) /\
    lastGradient w2 !! 0%nat = Some (-2).
Proof.
  apply (X3_RPROPp_backtracks_then_pauses DEFAULT_ZERO_TOLERANCE [-1] [-2] 0 0 0
           (run DEFAULT_ZERO_TOLERANCE
              (start RPROPType.RPROPp 1 0 DEFAULT_INITIAL_UPDATE DEFAULT_MAX_STEP
                 None)
              [UpdateWeight [1] 0 0; UpdateWeight [1] 0 0])
           (-1) 1 0.12 0 0.12 (-2)).
  - reflexivity.
  - vm_compute. discriminate.
  - vm_compute. discriminate.
  - split; reflexivity.
  - reflexivity.
  - reflexivity.
Defined.

(** ** A neutral comparison *)

(** X4.  What [change == 0] does (first iteration, zero gradient, or a
    product below the sign tolerance).  RPROP+ and iRPROP+ leave the update
    value alone and return [sign(gradient)] times it.  RPROP- and iRPROP-
    have no branch of their own for it: they go through the branch of a
    reversal and set [lastDelta[i]] to
    [max(lastDelta[i] * NEGATIVE_ETA, DELTA_MIN)], which is not above the old
    value when that was at least [DELTA_MIN]. *)
Theorem X4_neutral_comparison (tolerance : Q) (gradients : list Q) (index : nat)
    (dropoutRate : Q) (w : World) (g lg uv ld lwc : Q) :
  ~ 0 < dropoutRate ->
  entries gradients index w g lg uv ld lwc ->
  sign tolerance (g * lg) = 0 ->
  (rpropType (this w) = RPROPType.RPROPp \/
   rpropType (this w) = RPROPType.iRPROPp ->
   exists w' : World,
     updateWeight tolerance gradients index dropoutRate w
       = (Normal (sign tolerance g * uv), w') /\
     updateValues (this w') !! index = Some uv) /\
  (rpropType (this w) = RPROPType.RPROPm \/
   rpropType (this w) = RPROPType.iRPROPm ->
   exists w' : World,
     updateWeight tolerance gradients index dropoutRate w
       = (Normal (sign tolerance g * Qmax (ld * NEGATIVE_ETA) DELTA_MIN), w') /\
     lastDelta (this w') !! index = Some (Qmax (ld * NEGATIVE_ETA) DELTA_MIN) /\
     (DELTA_MIN <= ld -> Qmax (ld * NEGATIVE_ETA) DELTA_MIN <= ld)).
Proof.
  intros Hd H Hs. apply not_gt_false in Hd.
  pose proof H as [Hg Hlg Huv Hld Hlwc].
  pose proof (lookup_lt_Some _ _ _ Huv) as Huv_lt.
  pose proof (lookup_lt_Some _ _ _ Hld) as Hld_lt.
  split.
  - intros [Hty|Hty].
    + rewrite (updateWeight_RPROPp_run _ _ _ _ _ _ _ _ _ _ Hty Hd H).
      rewrite (plus_rule_neutral _ _ _ _ _ _ Hs).
      eexists. split; [reflexivity|].
      unfold updated; cbn [this updateValues].
      apply list_lookup_insert_eq. assumption.
    + rewrite (updateWeight_iRPROPp_run _ _ _ _ _ _ _ _ _ _ Hty Hd H).
      rewrite (iplus_rule_neutral _ _ _ _ _ _ _ _ Hs).
      eexists. split; [reflexivity|].
      unfold updated; cbn [this updateValues].
      apply list_lookup_insert_eq. assumption.
  - intros Hty.
    assert (Hmv : minus_variant (rpropType (this w)) = true)
      by (destruct Hty as [-> | ->]; reflexivity).
    rewrite (updateWeight_minus_run _ _ _ _ _ _ _ _ _ _ Hmv Hd H).
    unfold minus_rule. rewrite Hs.
    replace (js_gt 0 0) with false by reflexivity.
    eexists. split; [reflexivity|].
    unfold updated; cbn [this lastDelta].
    split; [apply list_lookup_insert_eq; assumption|].
    intros Hlo. pose proof DELTA_MIN_pos as Hpos. unfold NEGATIVE_ETA.
    destruct (Q.max_spec (ld * 0.5) DELTA_MIN) as [[_ Heq]|[_ Heq]];
      rewrite Heq; lra.
Qed.

Lemma X4_neutral_comparison_witness :
  (rpropType (this rpropm_after_one_call) = RPROPType.RPROPp \/
   rpropType (this rpropm_after_one_call) = RPROPType.iRPROPp ->
   exists w' : World,
     updateWeight DEFAULT_ZERO_TOLERANCE [0; 1] 0 0 rpropm_after_one_call
       = (Normal (sign DEFAULT_ZERO_TOLERANCE 0 * 0.1), w') /\
     updateValues (this w') !! 0%nat = Some 0.1) /\
  (rpropType (this rpropm_after_one_call) = RPROPType.RPROPm \/
   rpropType (this rpropm_after_one_call) = RPROPType.iRPROPm ->
   exists w' : World,
     updateWeight DEFAULT_ZERO_TOLERANCE [0; 1] 0 0 rpropm_after_one_call
       = (Normal (sign DEFAULT_ZERO_TOLERANCE 0
                  * Qmax (0.000001 * NEGATIVE_ETA) DELTA_MIN), w') /\
     lastDelta (this w') !! 0%nat
       = Some (Qmax (0.000001 * NEGATIVE_ETA) DELTA_MIN) /\
     (DELTA_MIN <= 0.000001 ->
      Qmax (0.000001 * NEGATIVE_ETA) DELTA_MIN <= 0.000001)).
Proof.
  apply (X4_neutral_comparison DEFAULT_ZERO_TOLERANCE [0; 1] 0 0
           rpropm_after_one_call 0 1 0.1 0.000001 0.000001).
  - vm_compute. discriminate.
  - split; reflexivity.
  - reflexivity.
Defined.

(** ** The stored zero tolerance *)

Lemma zt_ret {A} (a : A) : ignores_zeroTolerance (ret a).
Proof. intros zt w. reflexivity. Qed.

Lemma zt_throw {A} (e : JsError) : ignores_zeroTolerance (@throw A e).
Proof. intros zt w. reflexivity. Qed.

Lemma zt_unrepresented {A} : ignores_zeroTolerance (@unrepresented A).
Proof. intros zt w. reflexivity. Qed.

Lemma zt_maxStep : ignores_zeroTolerance (field maxStep).
Proof. intros zt w. reflexivity. Qed.

Lemma zt_rpropType : ignores_zeroTolerance (field rpropType).
Proof. intros zt w. reflexivity. Qed.

Lemma zt_error : ignores_zeroTolerance (field error).
Proof. intros zt w. reflexivity. Qed.

Lemma zt_lastError : ignores_zeroTolerance (field lastError).
Proof. intros zt w. reflexivity. Qed.

Lemma zt_element (a : list Q) (index : nat) :
  ignores_zeroTolerance (element a index).
Proof. intros zt w. unfold element. destruct (a !! index); reflexivity. Qed.

Lemma zt_lastGradient_at (index : nat) :
  ignores_zeroTolerance (lastGradient_at index).
Proof.
  intros zt w. unfold lastGradient_at, element.
  cbn [swap_zeroTolerance lastGradient].
  destruct (lastGradient w !! index); reflexivity.
Qed.

Lemma zt_this_updateValues (index : nat) :
  ignores_zeroTolerance (this_updateValues index).
Proof.
  intros zt w. unfold this_updateValues, element.
  cbn [swap_zeroTolerance this updateValues].
  destruct (updateValues (this w) !! index); reflexivity.
Qed.

Lemma zt_this_lastDelta (index : nat) :
  ignores_zeroTolerance (this_lastDelta index).
Proof.
  intros zt w. unfold this_lastDelta, element.
  cbn [swap_zeroTolerance this lastDelta].
  destruct (lastDelta (this w) !! index); reflexivity.
Qed.

Lemma zt_this_lastWeightChange (index : nat) :
  ignores_zeroTolerance (this_lastWeightChange index).
Proof.
  intros zt w. unfold this_lastWeightChange, element.
  cbn [swap_zeroTolerance this lastWeightChange].
  destruct (lastWeightChange (this w) !! index); reflexivity.
Qed.

Lemma zt_set_updateValues (index : nat) (v : Q) :
  ignores_zeroTolerance (set_updateValues index v).
Proof.
  intros zt w. unfold set_updateValues.
  cbn [swap_zeroTolerance this updateValues].
  destruct (assign _ _ _); reflexivity.
Qed.

Lemma zt_set_lastDelta (index : nat) (v : Q) :
  ignores_zeroTolerance (set_lastDelta index v).
Proof.
  intros zt w. unfold set_lastDelta.
  cbn [swap_zeroTolerance this lastDelta].
  destruct (assign _ _ _); reflexivity.
Qed.

Lemma zt_set_lastWeightChange (index : nat) (v : Q) :
  ignores_zeroTolerance (set_lastWeightChange index v).
Proof.
  intros zt w. unfold set_lastWeightChange.
  cbn [swap_zeroTolerance this lastWeightChange].
  destruct (assign _ _ _); reflexivity.
Qed.

Lemma zt_set_lastGradient (index : nat) (v : Q) :
  ignores_zeroTolerance (set_lastGradient index v).
Proof.
  intros zt w. unfold set_lastGradient.
  cbn [swap_zeroTolerance lastGradient].
  destruct (assign _ _ _); reflexivity.
Qed.

Lemma zt_read_q : ignores_zeroTolerance read_q.
Proof.
  intros zt w. unfold read_q. cbn [swap_zeroTolerance scope_q].
  destruct (scope_q w); reflexivity.
Qed.

Lemma zt_write_q (v : Q) : ignores_zeroTolerance (write_q v).
Proof.
  intros zt w. unfold write_q. cbn [swap_zeroTolerance scope_q].
  destruct (scope_q w); reflexivity.
Qed.

Lemma zt_bind {A B} (m : Js A) (k : A -> Js B) :
  ignores_zeroTolerance m -> (forall a, ignores_zeroTolerance (k a)) ->
  ignores_zeroTolerance (bind m k).
Proof.
  intros Hm Hk zt w. unfold bind. rewrite Hm.
  destruct (m w) as [[a|e|] w1]; cbn [fst snd]; [apply Hk|reflexivity..].
Qed.

Create HintDb zt.

#[local] Hint Resolve zt_ret zt_throw zt_unrepresented zt_maxStep zt_rpropType
  zt_error zt_lastError zt_element zt_lastGradient_at zt_this_updateValues
  zt_this_lastDelta zt_this_lastWeightChange zt_set_updateValues
  zt_set_lastDelta zt_set_lastWeightChange zt_set_lastGradient zt_read_q
  zt_write_q : zt.

Ltac zt_walk :=
  repeat first
    [ solve [auto with zt]
    | apply zt_bind; [|intros ?]
    | match goal with
      | |- ignores_zeroTolerance (if ?b then _ else _) => destruct b
      end
    | progress cbv zeta ].

(** X5.  The [zeroTolerance] the constructor stores is dead configuration:
    [updateWeight] never reads or writes it.  Run on a store that differs in
    that field only, a call ends the same way and leaves the same store, up
    to that field. *)
Theorem X5_zeroTolerance_is_never_read (tolerance : Q) (gradients : list Q)
    (index : nat) (dropoutRate zt : Q) (w : World) :
  updateWeight tolerance gradients index dropoutRate (swap_zeroTolerance zt w)
  = (fst (updateWeight tolerance gradients index dropoutRate w),
     swap_zeroTolerance zt
       (snd (updateWeight tolerance gradients index dropoutRate w))).
Proof.
  revert zt w.
  change (ignores_zeroTolerance
            (updateWeight tolerance gradients index dropoutRate)).
  unfold updateWeight, updateWeightPlus, updateWeightMinus, updateiWeightPlus,
    updateiWeightMinus, updateJacobiWeight.
  zt_walk.
Qed.

(** ** Steps that keep their sign *)

Lemma eta_power_succ (k : nat) :
  POSITIVE_ETA ^ Z.of_nat (S k) == POSITIVE_ETA * POSITIVE_ETA ^ Z.of_nat k.
Proof.
  rewrite Nat2Z.inj_succ. unfold Z.succ. rewrite Z.add_comm.
  rewrite Qpower_plus by (unfold POSITIVE_ETA; lra).
  reflexivity.
Qed.

Lemma eta_power_ge_1 (k : nat) : 1 <= POSITIVE_ETA ^ Z.of_nat k.
Proof.
  apply Qpower_1_le; [unfold POSITIVE_ETA; lra|lia].
Qed.

Lemma growth_compose (uv ms p : Q) :
  0 <= uv -> uv <= ms -> 1 <= p ->
  Qmin (Qmin (uv * POSITIVE_ETA) ms * p) ms == Qmin (uv * (POSITIVE_ETA * p)) ms.
Proof.
  intros Huv Hms Hp. unfold POSITIVE_ETA.
  destruct (Q.min_spec (uv * 1.2) ms) as [[Hlt Heq]|[Hle Heq]]; rewrite Heq.
  - assert (E : uv * (1.2 * p) == uv * 1.2 * p) by ring. rewrite E. reflexivity.
  - assert (H1 : ms <= ms * p) by nra.
    assert (H2 : ms <= uv * (1.2 * p)) by nra.
    rewrite (Q.min_r _ _ H1), (Q.min_r _ _ H2). reflexivity.
Qed.

Lemma run_cons (tolerance : Q) (w : World) (ev : event) (evs : list event) :
  run tolerance w (ev :: evs) = run tolerance (step tolerance w ev) evs.
Proof. reflexivity. Qed.



(** * [DataToolbox] *)

(** ** Floors *)

Lemma floor_unique (x : Q) (z : Z) :
  inject_Z z <= x -> x < inject_Z (z + 1) -> Qfloor x = z.
Proof.
  intros Hlo Hhi.
  pose proof (Qfloor_le x) as H1. pose proof (Qlt_floor x) as H2.
  assert (A : inject_Z z < inject_Z (Qfloor x + 1)) by lra.
  assert (B : inject_Z (Qfloor x) < inject_Z (z + 1)) by lra.
  rewrite <- Zlt_Qlt in A, B. lia.
Qed.

Lemma js_ge_true (x y : Q) : DataToolbox.js_ge x y = true <-> y <= x.
Proof. apply Qle_bool_iff. Qed.

Lemma js_ge_false (x y : Q) : DataToolbox.js_ge x y = false <-> x < y.
Proof.
  unfold DataToolbox.js_ge. rewrite <- not_true_iff_false, Qle_bool_iff.
  split; [apply Qnot_le_lt | apply Qlt_not_le].
Qed.

Lemma js_le_false (x y : Q) : DataToolbox.js_le x y = false <-> y < x.
Proof.
  unfold DataToolbox.js_le. rewrite <- not_true_iff_false, Qle_bool_iff.
  split; [apply Qnot_le_lt | apply Qlt_not_le].
Qed.

(** ** [trainTestSpit] *)

(** The two floors of a split and how they add up. *)
Lemma split_floors (len : Z) (t : Q) :
  (0 <= len)%Z -> 0 < t -> t < 1 ->
  (0 <= Qfloor (inject_Z len * (1 - t)) <= len)%Z /\
  (0 <= Qfloor (inject_Z len * t) <= len)%Z /\
  (len - 1 <= Qfloor (inject_Z len * (1 - t)) + Qfloor (inject_Z len * t) <= len)%Z /\
  ((Qfloor (inject_Z len * (1 - t)) + Qfloor (inject_Z len * t) = len)%Z <->
   inject_Z (Qfloor (inject_Z len * t)) == inject_Z len * t).
Proof.
  intros Hlen Ht0 Ht1.
  set (L := inject_Z len).
  assert (HL : 0 <= L) by (unfold L; rewrite <- (Zle_Qle 0); exact Hlen).
  set (a := Qfloor (L * (1 - t))). set (b := Qfloor (L * t)).
  pose proof (Qfloor_le (L * (1 - t))) as A1.
  pose proof (Qlt_floor (L * (1 - t))) as A2.
  pose proof (Qfloor_le (L * t)) as B1.
  pose proof (Qlt_floor (L * t)) as B2.
  fold a in A1, A2. fold b in B1, B2.
  rewrite inject_Z_plus in A2, B2.
  change (inject_Z 1) with 1 in A2, B2.
  assert (X0 : 0 <= L * (1 - t)) by nra.
  assert (X1 : L * (1 - t) <= L) by nra.
  assert (Y0 : 0 <= L * t) by nra.
  assert (Y1 : L * t <= L) by nra.
  assert (Ha0 : (0 <= a)%Z).
  { apply Z.lt_succ_r. unfold Z.succ. rewrite Zlt_Qlt, inject_Z_plus.
    change (inject_Z 1) with 1. change (inject_Z 0) with 0. lra. }
  assert (Hb0 : (0 <= b)%Z).
  { apply Z.lt_succ_r. unfold Z.succ. rewrite Zlt_Qlt, inject_Z_plus.
    change (inject_Z 1) with 1. change (inject_Z 0) with 0. lra. }
  assert (Ha1 : (a <= len)%Z) by (rewrite Zle_Qle; fold L; lra).
  assert (Hb1 : (b <= len)%Z) by (rewrite Zle_Qle; fold L; lra).
  assert (Hsum1 : (a + b <= len)%Z).
  { rewrite Zle_Qle, inject_Z_plus. fold L. lra. }
  assert (Hsum2 : (len - 1 <= a + b)%Z).
  { assert (S : (len < a + b + 2)%Z).
    { rewrite Zlt_Qlt, !inject_Z_plus. fold L.
      change (inject_Z 2) with 2. lra. }
    lia. }
  repeat split; try assumption.
  - intros Heq.
    assert (E : inject_Z a + inject_Z b == L).
    { rewrite <- inject_Z_plus, Heq. reflexivity. }
    lra.
  - intros Heq.
    assert (Hx : L * (1 - t) == inject_Z (len - b)).
    { unfold Zminus. rewrite inject_Z_plus, inject_Z_opp. fold L. lra. }
    assert (Ea : a = (len - b)%Z).
    { unfold a. rewrite (Qfloor_comp _ _ Hx). apply Qfloor_Z. }
    lia.
Qed.

Lemma truncate_nonneg (x : Q) :
  0 <= x -> DataToolbox.ToIntegerOrInfinity x = Qfloor x.
Proof.
  intros H. unfold DataToolbox.ToIntegerOrInfinity.
  replace (js_lt x 0) with false; [reflexivity|].
  symmetry. apply js_lt_false. exact H.
Qed.

Lemma truncate_negated (y : Q) :
  0 <= y -> DataToolbox.ToIntegerOrInfinity (- y) = (- Qfloor y)%Z.
Proof.
  intros H. unfold DataToolbox.ToIntegerOrInfinity.
  destruct (js_lt (- y) 0) eqn:Hlt.
  - unfold Qceiling. rewrite (Qfloor_comp (- - y) y) by ring. reflexivity.
  - apply js_lt_false in Hlt.
    assert (Hy : y == 0) by lra.
    rewrite (Qfloor_comp (- y) 0) by lra.
    rewrite (Qfloor_comp y 0) by exact Hy. reflexivity.
Qed.

Lemma truncate_comp (x y : Q) :
  x == y -> DataToolbox.ToIntegerOrInfinity x = DataToolbox.ToIntegerOrInfinity y.
Proof.
  intros E. unfold DataToolbox.ToIntegerOrInfinity.
  destruct (js_lt x 0) eqn:Hx, (js_lt y 0) eqn:Hy.
  - apply Qceiling_comp. exact E.
  - apply js_lt_true in Hx. apply js_lt_false in Hy. lra.
  - apply js_lt_false in Hx. apply js_lt_true in Hy. lra.
  - apply Qfloor_comp. exact E.
Qed.

(** What [trainTestSpit] returns for a test size strictly between 0 and 1:
    a prefix and a suffix of the dataset. *)
Lemma trainTestSpit_run {A} (dataset : list A) (t : Q) :
  0 < t -> t < 1 ->
  DataToolbox.trainTestSpit dataset t =
    DataToolbox.Returns
      {| DataToolbox.train :=
           take (Z.to_nat (Qfloor (inject_Z (Z.of_nat (length dataset)) * (1 - t))))
             dataset;
         DataToolbox.test :=
           drop
             (if (Qfloor (inject_Z (Z.of_nat (length dataset)) * t) =? 0)%Z
              then 0%nat
              else (length dataset
                    - Z.to_nat (Qfloor (inject_Z (Z.of_nat (length dataset)) * t)))%nat)
             dataset |}.
Proof.
  intros Ht0 Ht1. unfold DataToolbox.trainTestSpit.
  replace (DataToolbox.js_ge t 1) with false
    by (symmetry; apply js_ge_false; exact Ht1).
  replace (DataToolbox.js_le t 0) with false
    by (symmetry; apply js_le_false; exact Ht0).
  cbn [orb].
  set (len := Z.of_nat (length dataset)).
  assert (Hlen : (0 <= len)%Z) by (unfold len; lia).
  destruct (split_floors len t Hlen Ht0 Ht1) as ((Ha0 & Ha1) & (Hb0 & Hb1) & _).
  set (a := Qfloor (inject_Z len * (1 - t))) in *.
  set (b := Qfloor (inject_Z len * t)) in *.
  assert (HL : 0 <= inject_Z len) by (rewrite <- (Zle_Qle 0); exact Hlen).
  f_equal. f_equal.
  - unfold DataToolbox.slice. fold len.
    rewrite (truncate_nonneg 0) by lra.
    rewrite truncate_nonneg by nra. fold a.
    change (Qfloor 0) with 0%Z.
    unfold DataToolbox.relative_index.
    replace (0 <? 0)%Z with false by reflexivity.
    replace (a <? 0)%Z with false by (symmetry; apply Z.ltb_ge; exact Ha0).
    rewrite (Z.min_l 0 len) by exact Hlen.
    rewrite (Z.min_l a len) by exact Ha1.
    rewrite Z.sub_0_r, (Z.max_l a 0) by exact Ha0.
    cbn [Z.to_nat drop]. reflexivity.
  - unfold DataToolbox.slice. fold len.
    assert (E : - inject_Z len * t == - (inject_Z len * t)) by ring.
    rewrite (truncate_comp _ _ E).
    rewrite truncate_negated by nra. fold b.
    unfold DataToolbox.relative_index.
    destruct (b =? 0)%Z eqn:Hb.
    + apply Z.eqb_eq in Hb. rewrite Hb.
      change (- 0)%Z with 0%Z.
      replace (0 <? 0)%Z with false by reflexivity.
      rewrite (Z.min_l 0 len) by exact Hlen.
      rewrite Z.sub_0_r, (Z.max_l len 0) by exact Hlen.
      cbn [Z.to_nat drop]. unfold len. rewrite Nat2Z.id.
      apply firstn_all.
    + apply Z.eqb_neq in Hb.
      replace (- b <? 0)%Z with true by (symmetry; apply Z.ltb_lt; lia).
      rewrite (Z.max_l (len + - b) 0) by lia.
      replace (Z.to_nat (len + - b)) with (length dataset - Z.to_nat b)%nat
        by (unfold len; lia).
      replace (Z.to_nat (Z.max (len - (len + - b)) 0)) with (Z.to_nat b) by lia.
      apply take_ge. rewrite length_drop. lia.
Qed.





(** ** [featureScaling] *)

Lemma shift_pos (precision : Z) : 0 < 10 ^ Z.min precision 292.
Proof. apply Qpower_0_lt. reflexivity. Qed.

Lemma round_comp (x y : Q) (precision : Z) :
  x == y -> DataToolbox.round x precision = DataToolbox.round y precision.
Proof.
  intros E. unfold DataToolbox.round.
  rewrite (Qfloor_comp (x * 10 ^ Z.min precision 292 + (1 # 2))
             (y * 10 ^ Z.min precision 292 + (1 # 2))); [reflexivity|].
  rewrite E. reflexivity.
Qed.

Lemma round_monotone (x y : Q) (precision : Z) :
  x <= y -> DataToolbox.round x precision <= DataToolbox.round y precision.
Proof.
  intros Hxy. unfold DataToolbox.round.
  pose proof (shift_pos precision) as HP.
  set (P := 10 ^ Z.min precision 292) in *.
  assert (Hf : (Qfloor (x * P + (1 # 2)) <= Qfloor (y * P + (1 # 2)))%Z).
  { apply Qfloor_resp_le. nra. }
  rewrite Zle_Qle in Hf.
  unfold Qdiv. pose proof (Qinv_lt_0_compat P HP) as Hi.
  nra.
Qed.

(** The rounded value is within half a unit of the last kept place. *)
Lemma round_error (x : Q) (precision : Z) :
  x - (1 # 2) / 10 ^ Z.min precision 292 < DataToolbox.round x precision /\
  DataToolbox.round x precision <= x + (1 # 2) / 10 ^ Z.min precision 292.
Proof.
  unfold DataToolbox.round.
  pose proof (shift_pos precision) as HP.
  set (P := 10 ^ Z.min precision 292) in *.
  pose proof (Qfloor_le (x * P + (1 # 2))) as H1.
  pose proof (Qlt_floor (x * P + (1 # 2))) as H2.
  rewrite inject_Z_plus in H2. change (inject_Z 1) with 1 in H2.
  set (f := inject_Z (Qfloor (x * P + (1 # 2)))) in *.
  assert (HPne : ~ P == 0) by lra.
  split.
  - apply Qlt_shift_div_l; [exact HP|].
    assert (E : (x - (1 # 2) / P) * P == x * P - (1 # 2)) by (field; exact HPne).
    rewrite E. lra.
  - apply Qle_shift_div_r; [exact HP|].
    assert (E : (x + (1 # 2) / P) * P == x * P + (1 # 2)) by (field; exact HPne).
    rewrite E. lra.
Qed.

Lemma featureScaling_run (roundPrecision : Z) (value mn mx minRange maxRange : Q) :
  mn < mx -> minRange < maxRange ->
  DataToolbox.featureScaling roundPrecision value (DataToolbox.Number mn)
    (DataToolbox.Number mx) minRange maxRange
  = DataToolbox.Returns
      (DataToolbox.round
         (minRange + (maxRange - minRange) * ((value - mn) / (mx - mn)))
         roundPrecision).
Proof.
  intros Hm Hr. unfold DataToolbox.featureScaling. cbn [DataToolbox.number_ge].
  replace (DataToolbox.js_ge mn mx) with false
    by (symmetry; apply js_ge_false; exact Hm).
  replace (DataToolbox.js_ge minRange maxRange) with false
    by (symmetry; apply js_ge_false; exact Hr).
  reflexivity.
Qed.

Lemma affine_monotone (v1 v2 mn mx lo hi : Q) :
  mn < mx -> lo < hi -> v1 <= v2 ->
  lo + (hi - lo) * ((v1 - mn) / (mx - mn))
  <= lo + (hi - lo) * ((v2 - mn) / (mx - mn)).
Proof.
  intros Hm Hr Hv. unfold Qdiv.
  assert (Hi : 0 < / (mx - mn)) by (apply Qinv_lt_0_compat; lra).
  set (i := / (mx - mn)) in *.
  assert (H1 : (v1 - mn) * i <= (v2 - mn) * i) by nra.
  nra.
Qed.

Lemma affine_at_min (v mn mx lo hi : Q) :
  mn < mx -> v == mn -> lo + (hi - lo) * ((v - mn) / (mx - mn)) == lo.
Proof. intros Hm E. rewrite E. field. lra. Qed.

Lemma affine_at_max (v mn mx lo hi : Q) :
  mn < mx -> v == mx -> lo + (hi - lo) * ((v - mn) / (mx - mn)) == hi.
Proof. intros Hm E. rewrite E. field. lra. Qed.



(** X10.  The result of [featureScaling] is the exact image
    [minRange + (maxRange - minRange) * (value - min) / (max - min)] up to
    half a unit of the last decimal place kept: so for a value between
    [min] and [max] it can lie outside [[minRange, maxRange]], but by no more
    than that. *)
Theorem X10_featureScaling_accuracy (roundPrecision : Z)
    (value mn mx minRange maxRange : Q) :
  mn < mx ->
  minRange < maxRange ->
  exists r : Q,
    DataToolbox.featureScaling roundPrecision value (DataToolbox.Number mn)
      (DataToolbox.Number mx) minRange maxRange = DataToolbox.Returns r /\
    Qabs (r - (minRange + (maxRange - minRange) * ((value - mn) / (mx - mn))))
      <= (1 # 2) / 10 ^ Z.min roundPrecision 292 /\
    (mn <= value -> value <= mx ->
     minRange - (1 # 2) / 10 ^ Z.min roundPrecision 292 <= r /\
     r <= maxRange + (1 # 2) / 10 ^ Z.min roundPrecision 292).
Proof.
  intros Hm Hr.
  eexists. split; [apply featureScaling_run; assumption|].
  set (x := minRange + (maxRange - minRange) * ((value - mn) / (mx - mn))).
  destruct (round_error x roundPrecision) as [H1 H2].
  set (h := (1 # 2) / 10 ^ Z.min roundPrecision 292) in *.
  split.
  - apply Qabs_Qle_condition. split; lra.
  - intros Hlo Hhi.
    assert (A : minRange <= x).
    { unfold x.
      rewrite <- (affine_at_min mn mn mx minRange maxRange Hm (Qeq_refl mn)) at 1.
      apply affine_monotone; assumption. }
    assert (B : x <= maxRange).
    { unfold x.
      rewrite <- (affine_at_max mx mn mx minRange maxRange Hm (Qeq_refl mx)) at 2.
      apply affine_monotone; assumption. }
    split; lra.
Qed.

Lemma X10_featureScaling_accuracy_witness :
  exists r : Q,
    DataToolbox.featureScaling 2 3 (DataToolbox.Number 1)
      (DataToolbox.Number 7) (-1) 1 = DataToolbox.Returns r /\
    Qabs (r - (-1 + (1 - -1) * ((3 - 1) / (7 - 1))))
      <= (1 # 2) / 10 ^ Z.min 2 292 /\
    (1 <= 3 -> 3 <= 7 ->
     -1 - (1 # 2) / 10 ^ Z.min 2 292 <= r /\
     r <= 1 + (1 # 2) / 10 ^ Z.min 2 292).
Proof.
  apply (X10_featureScaling_accuracy 2 3 1 7 (-1) 1); reflexivity.
Defined.

(** ** [calcMinMaxValues] *)

Lemma each_row_app (obj : list DataToolbox.MinMax) (a b : list (list Q)) :
  DataToolbox.each_row obj (a ++ b) =
    match DataToolbox.each_row obj a with
    | DataToolbox.Returns obj' => DataToolbox.each_row obj' b
    | other => other
    end.
Proof.
  revert obj. induction a as [|row a IH]; intros obj; cbn; [reflexivity|].
  destruct (DataToolbox.each_value obj 0 row); auto.
Qed.

Lemma each_chunk_concat (obj : list DataToolbox.MinMax)
    (chunks : list (list (list Q))) :
  DataToolbox.each_chunk obj chunks = DataToolbox.each_row obj (concat chunks).
Proof.
  revert obj. induction chunks as [|c chunks IH]; intros obj; cbn; [reflexivity|].
  rewrite each_row_app.
  destruct (DataToolbox.each_row obj c); auto.
Qed.

Lemma chunk_pieces_concat {A} (size pieces : nat) (a : list A) :
  (0 < size)%nat -> (length a <= pieces)%nat ->
  concat (DataToolbox.chunk_pieces pieces size a) = a.
Proof.
  intros Hsize. revert a. induction pieces as [|pieces IH]; intros a Hlen.
  - destruct a; [reflexivity|cbn in Hlen; lia].
  - destruct a as [|x a]; [reflexivity|].
    cbn [DataToolbox.chunk_pieces concat].
    rewrite IH.
    + apply take_drop.
    + rewrite length_drop. cbn [length] in *. lia.
Qed.

(** Cutting the rows into chunks and walking the chunks is walking the
    rows. *)
Lemma chunk_concat {A} (a : list A) (size : nat) :
  (0 < size)%nat -> concat (DataToolbox.chunk a size) = a.
Proof.
  intros Hsize. unfold DataToolbox.chunk.
  destruct size as [|size]; [lia|].
  apply chunk_pieces_concat; lia.
Qed.

Lemma calcMinMaxValues_rows (values : list (list Q)) :
  DataToolbox.calcMinMaxValues values =
    DataToolbox.each_row
      (match values with
       | [] => []
       | first :: _ => map (fun _ => unbounded) first
       end)
      values.
Proof.
  unfold DataToolbox.calcMinMaxValues.
  rewrite each_chunk_concat, chunk_concat; [reflexivity|].
  apply Nat.lt_0_succ.
Qed.

(** A row that fits: every entry from [index] on that has a value in the row
    is widened by it, the other entries stay. *)
Lemma each_value_fits (rest : list Q) (obj : list DataToolbox.MinMax)
    (index : nat) :
  (index + length rest <= length obj)%nat ->
  exists obj' : list DataToolbox.MinMax,
    DataToolbox.each_value obj index rest = DataToolbox.Returns obj' /\
    length obj' = length obj /\
    forall j : nat,
      obj' !! j =
        match obj !! j with
        | Some e =>
            Some (if decide (index <= j)%nat
                  then match rest !! (j - index)%nat with
                       | Some v => widen e v
                       | None => e
                       end
                  else e)
        | None => None
        end.
Proof.
  revert obj index. induction rest as [|v rest IH]; intros obj index Hfit.
  - exists obj. split; [reflexivity|]. split; [reflexivity|].
    intros j. destruct (obj !! j); [|reflexivity].
    destruct (decide _); [rewrite lookup_nil|]; reflexivity.
  - cbn [length] in Hfit.
    destruct (lookup_lt_is_Some_2 obj index) as [e He]; [lia|].
    cbn [DataToolbox.each_value]. rewrite He.
    fold (widen e v).
    destruct (IH (<[index := widen e v]> obj) (S index)) as (obj' & Hrun & Hlen & Hpt).
    { rewrite length_insert. lia. }
    exists obj'. split; [exact Hrun|].
    split; [rewrite Hlen; apply length_insert|].
    intros j. rewrite Hpt.
    destruct (decide (j = index)) as [->|Hne].
    + rewrite list_lookup_insert_eq by lia. rewrite He.
      destruct (decide (S index <= index)%nat); [lia|].
      destruct (decide (index <= index)%nat); [|lia].
      rewrite Nat.sub_diag. reflexivity.
    + rewrite list_lookup_insert_ne by congruence.
      destruct (obj !! j) as [ej|]; [|reflexivity].
      destruct (decide (S index <= j)%nat), (decide (index <= j)%nat);
        try lia; [|reflexivity].
      replace (j - index)%nat with (S (j - S index)) by lia. reflexivity.
Qed.

(** A row that does not fit: the entry past the last one is [undefined]. *)
Lemma each_value_overflows (rest : list Q) (obj : list DataToolbox.MinMax)
    (index : nat) :
  (index <= length obj)%nat ->
  (length obj < index + length rest)%nat ->
  DataToolbox.each_value obj index rest
  = DataToolbox.Throws DataToolbox.TypeError.
Proof.
  revert obj index. induction rest as [|v rest IH]; intros obj index Hin Hover.
  - cbn [length] in Hover. lia.
  - cbn [DataToolbox.each_value length] in *.
    destruct (obj !! index) as [e|] eqn:He; [|reflexivity].
    apply IH.
    + rewrite length_insert. apply lookup_lt_Some in He. lia.
    + rewrite length_insert. lia.
Qed.

Lemma each_row_short_rows (rows : list (list Q)) (obj : list DataToolbox.MinMax) :
  Forall (fun row => (length row <= length obj)%nat) rows ->
  exists obj' : list DataToolbox.MinMax,
    DataToolbox.each_row obj rows = DataToolbox.Returns obj' /\
    length obj' = length obj.
Proof.
  revert obj. induction rows as [|row rows IH]; intros obj Hall.
  - exists obj. split; reflexivity.
  - inversion Hall as [|? ? Hrow Hrest]; subst.
    destruct (each_value_fits row obj 0) as (obj1 & Hrun & Hlen & _); [lia|].
    cbn [DataToolbox.each_row]. rewrite Hrun.
    destruct (IH obj1) as (obj' & Hrun' & Hlen').
    { rewrite Hlen. exact Hrest. }
    exists obj'. split; [exact Hrun'|]. congruence.
Qed.

Lemma each_row_long_row (rows : list (list Q)) (obj : list DataToolbox.MinMax) :
  Exists (fun row => (length obj < length row)%nat) rows ->
  DataToolbox.each_row obj rows = DataToolbox.Throws DataToolbox.TypeError.
Proof.
  revert obj. induction rows as [|row rows IH]; intros obj Hex.
  - inversion Hex.
  - cbn [DataToolbox.each_row].
    destruct (le_lt_dec (length row) (length obj)) as [Hfit|Hover].
    + destruct (each_value_fits row obj 0) as (obj1 & Hrun & Hlen & _); [lia|].
      rewrite Hrun. apply IH.
      inversion Hex as [? ? Hrow|? ? Hrest]; subst; [lia|].
      rewrite Hlen. exact Hrest.
    + rewrite each_value_overflows by lia. reflexivity.
Qed.

(** X11.  [calcMinMaxValues] and ragged data.  The result has one entry per
    column of the first row.  The call returns when no row is longer than
    the first one, and throws a [TypeError] (a property of [undefined] is
    read) as soon as some row is longer; an empty dataset gives the empty
    array. *)
Theorem X11_calcMinMaxValues_row_lengths (first : list Q)
    (others : list (list Q)) :
  (Forall (fun row => (length row <= length first)%nat) others ->
   exists obj : list DataToolbox.MinMax,
     DataToolbox.calcMinMaxValues (first :: others) = DataToolbox.Returns obj /\
     length obj = length first) /\
  (Exists (fun row => (length first < length row)%nat) others ->
   DataToolbox.calcMinMaxValues (first :: others)
   = DataToolbox.Throws DataToolbox.TypeError) /\
  DataToolbox.calcMinMaxValues [] = DataToolbox.Returns [].
Proof.
  split; [|split].
  - intros Hall. rewrite calcMinMaxValues_rows.
    destruct (each_row_short_rows (first :: others) (map (fun _ => unbounded) first))
      as (obj & Hrun & Hlen).
    { rewrite length_map. constructor; [lia|exact Hall]. }
    exists obj. split; [exact Hrun|]. rewrite Hlen. apply length_map.
  - intros Hex. rewrite calcMinMaxValues_rows.
    apply each_row_long_row. rewrite length_map.
    apply Exists_cons_tl. exact Hex.
  - reflexivity.
Qed.

Lemma X11_calcMinMaxValues_row_lengths_witness :
  (Forall (fun row => (length row <= length [1; 2])%nat) [[3]; [0; 5]] ->
   exists obj : list DataToolbox.MinMax,
     DataToolbox.calcMinMaxValues ([1; 2] :: [[3]; [0; 5]])
       = DataToolbox.Returns obj /\
     length obj = length [1; 2]) /\
  (Exists (fun row => (length [1; 2] < length row)%nat) [[3]; [0; 5]] ->
   DataToolbox.calcMinMaxValues ([1; 2] :: [[3]; [0; 5]])
   = DataToolbox.Throws DataToolbox.TypeError) /\
  DataToolbox.calcMinMaxValues [] = DataToolbox.Returns [].
Proof.
  apply (X11_calcMinMaxValues_row_lengths [1; 2] [[3]; [0; 5]]).
Defined.

(** [Math.max] and [Math.min] give back one of their arguments. *)
Lemma Qmax_pick (x y : Q) : Qmax x y = x \/ Qmax x y = y.
Proof. unfold Qmax, GenericMinMax.gmax. destruct (x ?= y); auto. Qed.

Lemma Qmin_pick (x y : Q) : Qmin x y = x \/ Qmin x y = y.
Proof. unfold Qmin, GenericMinMax.gmin. destruct (x ?= y); auto. Qed.

Lemma entry_after_widen (seen : list (list Q)) (j : nat)
    (e : DataToolbox.MinMax) (row : list Q) (v : Q) :
  entry_after seen j e -> row !! j = Some v ->
  entry_after (seen ++ [row]) j (widen e v).
Proof.
  assert (Hlast : In row (seen ++ [row])).
  { apply in_app_iff. right. left. reflexivity. }
  intros [[Hnone ->]|(mn & mx & -> & Hb & (rx & Hrx & Hx) & (rn & Hrn & Hn))] Hv;
    right.
  - exists v, v. split; [reflexivity|]. split; [|split].
    + intros r u Hin Hu. apply in_app_iff in Hin as [Hin|[<-|[]]].
      * rewrite (Hnone r Hin) in Hu. discriminate.
      * rewrite Hv in Hu. injection Hu as <-. split; apply Qle_refl.
    + exists row. split; assumption.
    + exists row. split; assumption.
  - exists (Qmin mn v), (Qmax mx v). split; [reflexivity|]. split; [|split].
    + intros r u Hin Hu.
      pose proof (Q.le_min_l mn v). pose proof (Q.le_min_r mn v).
      pose proof (Q.le_max_l mx v). pose proof (Q.le_max_r mx v).
      apply in_app_iff in Hin as [Hin|[<-|[]]].
      * destruct (Hb r u Hin Hu). split; lra.
      * rewrite Hv in Hu. injection Hu as <-. split; assumption.
    + destruct (Qmax_pick mx v) as [-> | ->].
      * exists rx. split; [apply in_app_iff; left; exact Hrx|exact Hx].
      * exists row. split; assumption.
    + destruct (Qmin_pick mn v) as [-> | ->].
      * exists rn. split; [apply in_app_iff; left; exact Hrn|exact Hn].
      * exists row. split; assumption.
Qed.

Lemma entry_after_skip (seen : list (list Q)) (j : nat)
    (e : DataToolbox.MinMax) (row : list Q) :
  entry_after seen j e -> row !! j = None ->
  entry_after (seen ++ [row]) j e.
Proof.
  intros [[Hnone ->]|(mn & mx & -> & Hb & (rx & Hrx & Hx) & (rn & Hrn & Hn))] Hv.
  - left. split; [|reflexivity].
    intros r Hin. apply in_app_iff in Hin as [Hin|[<-|[]]]; auto.
  - right. exists mn, mx. split; [reflexivity|]. split; [|split].
    + intros r u Hin Hu. apply in_app_iff in Hin as [Hin|[<-|[]]].
      * exact (Hb r u Hin Hu).
      * rewrite Hv in Hu. discriminate.
    + exists rx. split; [apply in_app_iff; left; exact Hrx|exact Hx].
    + exists rn. split; [apply in_app_iff; left; exact Hrn|exact Hn].
Qed.

(** The rows loop keeps every entry at the bounds of its column. *)
Lemma each_row_bounds (rest seen : list (list Q))
    (obj : list DataToolbox.MinMax) :
  (forall j e, obj !! j = Some e -> entry_after seen j e) ->
  Forall (fun row => (length row <= length obj)%nat) rest ->
  exists obj' : list DataToolbox.MinMax,
    DataToolbox.each_row obj rest = DataToolbox.Returns obj' /\
    length obj' = length obj /\
    forall j e, obj' !! j = Some e -> entry_after (seen ++ rest) j e.
Proof.
  revert seen obj. induction rest as [|row rest IH]; intros seen obj Hinv Hall.
  - exists obj. rewrite app_nil_r. repeat split; assumption.
  - inversion Hall as [|? ? Hrow Hrest]; subst.
    destruct (each_value_fits row obj 0) as (obj1 & Hrun & Hlen & Hpt); [lia|].
    cbn [DataToolbox.each_row]. rewrite Hrun.
    destruct (IH (seen ++ [row]) obj1) as (obj' & Hrun' & Hlen' & Hinv').
    + intros j e He. rewrite Hpt in He.
      destruct (obj !! j) as [e0|] eqn:He0; [|discriminate].
      specialize (Hinv j e0 He0).
      destruct (decide (0 <= j)%nat) as [_|Hneg]; [|lia].
      replace (j - 0)%nat with j in He by lia.
      destruct (row !! j) as [v|] eqn:Hv; injection He as <-.
      * apply entry_after_widen; assumption.
      * apply entry_after_skip; assumption.
    + rewrite Hlen. exact Hrest.
    + exists obj'. split; [exact Hrun'|]. split; [congruence|].
      intros j e He.
      replace (seen ++ row :: rest) with ((seen ++ [row]) ++ rest)
        by (rewrite <- app_assoc; reflexivity).
      exact (Hinv' j e He).
Qed.

Lemma calcMinMaxValues_bounds (first : list Q) (others : list (list Q)) :
  Forall (fun row => (length row <= length first)%nat) others ->
  exists obj : list DataToolbox.MinMax,
    DataToolbox.calcMinMaxValues (first :: others) = DataToolbox.Returns obj /\
    length obj = length first /\
    forall j : nat, (j < length first)%nat ->
      exists mn mx : Q,
        obj !! j = Some {| DataToolbox.max := DataToolbox.Number mx;
                           DataToolbox.min := DataToolbox.Number mn |} /\
        column_bounds (first :: others) j mn mx.
Proof.
  intros Hall. rewrite calcMinMaxValues_rows.
  destruct (each_row_bounds (first :: others) [] (map (fun _ => unbounded) first))
    as (obj & Hrun & Hlen & Hinv).
  - intros j e He. left. split; [intros r []|].
    rewrite list_lookup_fmap in He.
    destruct (first !! j); [|discriminate]. injection He as <-. reflexivity.
  - rewrite length_map. constructor; [lia|exact Hall].
  - rewrite length_map in Hlen.
    exists obj. split; [exact Hrun|]. split; [exact Hlen|].
    intros j Hj.
    destruct (lookup_lt_is_Some_2 obj j) as [e He]; [lia|].
    destruct (lookup_lt_is_Some_2 first j Hj) as [v Hv].
    destruct (Hinv j e He) as [[Hnone _]|(mn & mx & -> & Hb)].
    + cbn [app] in Hnone. rewrite (Hnone first) in Hv; [discriminate|].
      left. reflexivity.
    + exists mn, mx. split; [exact He|exact Hb].
Qed.

(** X12.  On a dataset whose rows are no longer than the first one,
    [calcMinMaxValues] returns, for every column of the first row, the
    smallest and the largest value that column has in the dataset: both are
    values of the column, they bound every value of it, and [min <= max].
    No entry is left at the infinities it started from. *)
Theorem X12_calcMinMaxValues_column_bounds (first : list Q)
    (others : list (list Q)) :
  Forall (fun row => (length row <= length first)%nat) others ->
  exists obj : list DataToolbox.MinMax,
    DataToolbox.calcMinMaxValues (first :: others) = DataToolbox.Returns obj /\
    length obj = length first /\
    forall j : nat, (j < length first)%nat ->
      exists mn mx : Q,
        obj !! j = Some {| DataToolbox.max := DataToolbox.Number mx;
                           DataToolbox.min := DataToolbox.Number mn |} /\
        column_bounds (first :: others) j mn mx /\
        mn <= mx.
Proof.
  intros Hall.
  destruct (calcMinMaxValues_bounds first others Hall)
    as (obj & Hcalc & Hlen & Hcols).
  exists obj. split; [exact Hcalc|]. split; [exact Hlen|].
  intros j Hj. destruct (Hcols j Hj) as (mn & mx & He & Hb).
  exists mn, mx. split; [exact He|]. split; [exact Hb|].
  destruct Hb as (Hb & (rx & Hrx & Hx) & _).
  destruct (Hb rx mx Hrx Hx) as [Hle _]. exact Hle.
Qed.

Lemma X12_calcMinMaxValues_column_bounds_witness :
  exists obj : list DataToolbox.MinMax,
    DataToolbox.calcMinMaxValues ([1; 8] :: [[3]; [0; 5]])
      = DataToolbox.Returns obj /\
    length obj = length [1; 8] /\
    forall j : nat, (j < length [1; 8])%nat ->
      exists mn mx : Q,
        obj !! j = Some {| DataToolbox.max := DataToolbox.Number mx;
                           DataToolbox.min := DataToolbox.Number mn |} /\
        column_bounds ([1; 8] :: [[3]; [0; 5]]) j mn mx /\
        mn <= mx.
Proof.
  apply (X12_calcMinMaxValues_column_bounds [1; 8] [[3]; [0; 5]]).
  repeat constructor.
Defined.

(** ** [normalizeData] *)

Lemma scale_row_unfold (roundPrecision : Z) (mm : list DataToolbox.MinMax)
    (lo hi : Q) (index : nat) (v : Q) (rest : list Q) :
  DataToolbox.scale_row roundPrecision mm lo hi index (v :: rest)
  = match scaled_cell roundPrecision mm lo hi index v with
    | DataToolbox.Returns s =>
        let (o, rest') :=
          DataToolbox.scale_row roundPrecision mm lo hi (S index) rest in
        (o, s :: rest')
    | DataToolbox.Throws e => (DataToolbox.Throws e, v :: rest)
    | DataToolbox.Unmodelled => (DataToolbox.Unmodelled, v :: rest)
    end.
Proof.
  unfold scaled_cell. cbn [DataToolbox.scale_row].
  destruct (mm !! index); reflexivity.
Qed.

(** A row all of whose cells scale is rewritten cell by cell. *)
Lemma scale_row_returns (roundPrecision : Z) (mm : list DataToolbox.MinMax)
    (lo hi : Q) (row : list Q) (index : nat) :
  (forall k v, row !! k = Some v ->
     exists s, scaled_cell roundPrecision mm lo hi (index + k) v
               = DataToolbox.Returns s) ->
  exists row' : list Q,
    DataToolbox.scale_row roundPrecision mm lo hi index row
      = (DataToolbox.Returns tt, row') /\
    length row' = length row /\
    forall k v, row !! k = Some v ->
      exists s, row' !! k = Some s /\
                scaled_cell roundPrecision mm lo hi (index + k) v
                = DataToolbox.Returns s.
Proof.
  revert index. induction row as [|v0 rest IH]; intros index Hcells.
  - exists []. repeat split. intros k v Hv. discriminate.
  - destruct (Hcells 0%nat v0 eq_refl) as [s0 Hs0].
    rewrite Nat.add_0_r in Hs0.
    destruct (IH (S index)) as (rest' & Hrun & Hlen & Hrest).
    { intros k v Hv. destruct (Hcells (S k) v Hv) as [s Hs].
      exists s. rewrite Nat.add_succ_r in Hs. exact Hs. }
    exists (s0 :: rest'). rewrite scale_row_unfold, Hs0, Hrun.
    split; [reflexivity|]. split; [cbn [length]; congruence|].
    intros [|k] v Hv.
    + injection Hv as <-. exists s0. rewrite Nat.add_0_r. split; [reflexivity|exact Hs0].
    + destruct (Hrest k v Hv) as (s & Hk & Hs).
      exists s. rewrite Nat.add_succ_r. split; [exact Hk|exact Hs].
Qed.

(** A row whose cell [j] is the first one that throws: the cells before it
    are rewritten, the others are left. *)
Lemma scale_row_stops (roundPrecision : Z) (mm : list DataToolbox.MinMax)
    (lo hi : Q) (err : DataToolbox.Exception) (row : list Q) (index j : nat)
    (v : Q) :
  row !! j = Some v ->
  scaled_cell roundPrecision mm lo hi (index + j) v = DataToolbox.Throws err ->
  (forall k w, (k < j)%nat -> row !! k = Some w ->
     exists s, scaled_cell roundPrecision mm lo hi (index + k) w
               = DataToolbox.Returns s) ->
  exists done : list Q,
    DataToolbox.scale_row roundPrecision mm lo hi index row
      = (DataToolbox.Throws err, done ++ drop j row) /\
    length done = j /\
    forall k w, (k < j)%nat -> row !! k = Some w ->
      exists s, done !! k = Some s /\
                scaled_cell roundPrecision mm lo hi (index + k) w
                = DataToolbox.Returns s.
Proof.
  revert index j. induction row as [|v0 rest IH]; intros index j Hv Herr Hcells.
  - discriminate.
  - destruct j as [|j].
    + injection Hv as ->. rewrite Nat.add_0_r in Herr.
      exists []. rewrite scale_row_unfold, Herr.
      split; [reflexivity|]. split; [reflexivity|].
      intros k w Hk. lia.
    + destruct (Hcells 0%nat v0) as [s0 Hs0]; [lia|reflexivity|].
      rewrite Nat.add_0_r in Hs0.
      destruct (IH (S index) j) as (done & Hrun & Hlen & Hdone).
      * exact Hv.
      * rewrite Nat.add_succ_r in Herr. exact Herr.
      * intros k w Hk Hw. destruct (Hcells (S k) w) as [s Hs]; [lia|exact Hw|].
        exists s. rewrite Nat.add_succ_r in Hs. exact Hs.
      * exists (s0 :: done). rewrite scale_row_unfold, Hs0, Hrun.
        split; [reflexivity|]. split; [cbn [length]; congruence|].
        intros [|k] w Hk Hw.
        -- injection Hw as <-. exists s0. rewrite Nat.add_0_r.
           split; [reflexivity|exact Hs0].
        -- destruct (Hdone k w) as (s & Hd & Hs); [lia|exact Hw|].
           exists s. rewrite Nat.add_succ_r. split; [exact Hd|exact Hs].
Qed.

Lemma scale_rows_returns (roundPrecision : Z) (mm : list DataToolbox.MinMax)
    (lo hi : Q) (values : list (list Q)) :
  (forall row k v, In row values -> row !! k = Some v ->
     exists s, scaled_cell roundPrecision mm lo hi k v
               = DataToolbox.Returns s) ->
  exists values' : list (list Q),
    DataToolbox.scale_rows roundPrecision mm lo hi values
      = (DataToolbox.Returns tt, values') /\
    length values' = length values /\
    forall i row, values !! i = Some row ->
      exists row', values' !! i = Some row' /\
        length row' = length row /\
        forall k v, row !! k = Some v ->
          exists s, row' !! k = Some s /\
                    scaled_cell roundPrecision mm lo hi k v
                    = DataToolbox.Returns s.
Proof.
  induction values as [|row0 rest IH]; intros Hcells.
  - exists []. repeat split. intros i row Hrow. discriminate.
  - destruct (scale_row_returns roundPrecision mm lo hi row0 0)
      as (row0' & Hrun0 & Hlen0 & Hrow0).
    { intros k v Hv. apply (Hcells row0); [left; reflexivity|exact Hv]. }
    destruct IH as (rest' & Hrun & Hlen & Hrest).
    { intros row k v Hin Hv. apply (Hcells row); [right; exact Hin|exact Hv]. }
    exists (row0' :: rest'). cbn [DataToolbox.scale_rows].
    rewrite Hrun0, Hrun.
    split; [reflexivity|]. split; [cbn [length]; congruence|].
    intros [|i] row Hrow.
    + injection Hrow as <-. exists row0'.
      split; [reflexivity|]. split; [exact Hlen0|exact Hrow0].
    + exact (Hrest i row Hrow).
Qed.

(** The bounds of a column that varies are apart, and hold every value of
    the column between them. *)
Lemma varies_bounds (rows : list (list Q)) (j : nat) (mn mx : Q) :
  column_bounds rows j mn mx -> varies rows j -> mn < mx.
Proof.
  intros (Hb & _) (r1 & r2 & v1 & v2 & H1 & H2 & Hv1 & Hv2 & Hlt).
  destruct (Hb r1 v1 H1 Hv1), (Hb r2 v2 H2 Hv2). lra.
Qed.

Lemma constant_bounds (rows : list (list Q)) (j : nat) (mn mx : Q) :
  column_bounds rows j mn mx -> constant rows j -> mx <= mn.
Proof.
  intros (_ & (rx & Hrx & Hx) & (rn & Hrn & Hn)) Hconst.
  rewrite (Hconst rx rn mx mn Hrx Hrn Hx Hn). apply Qle_refl.
Qed.

Lemma scaled_cell_varies (roundPrecision : Z) (obj : list DataToolbox.MinMax)
    (rows : list (list Q)) (lo hi : Q) (row : list Q) (j : nat)
    (mn mx v : Q) :
  obj !! j = Some {| DataToolbox.max := DataToolbox.Number mx;
                     DataToolbox.min := DataToolbox.Number mn |} ->
  column_bounds rows j mn mx ->
  varies rows j ->
  lo < hi ->
  In row rows -> row !! j = Some v ->
  scaled_cell roundPrecision obj lo hi j v
  = DataToolbox.Returns
      (DataToolbox.round (lo + (hi - lo) * ((v - mn) / (mx - mn)))
         roundPrecision) /\
  DataToolbox.round lo roundPrecision
  <= DataToolbox.round (lo + (hi - lo) * ((v - mn) / (mx - mn))) roundPrecision /\
  DataToolbox.round (lo + (hi - lo) * ((v - mn) / (mx - mn))) roundPrecision
  <= DataToolbox.round hi roundPrecision.
Proof.
  intros He Hb Hvar Hr Hin Hv.
  pose proof (varies_bounds rows j mn mx Hb Hvar) as Hm.
  destruct Hb as (Hb & _). destruct (Hb row v Hin Hv) as [Hlo Hhi].
  split; [|split].
  - unfold scaled_cell. rewrite He.
    cbn [DataToolbox.min DataToolbox.max].
    apply featureScaling_run; assumption.
  - rewrite <- (round_comp _ _ roundPrecision
                  (affine_at_min mn mn mx lo hi Hm (Qeq_refl mn))).
    apply round_monotone, affine_monotone; assumption.
  - rewrite <- (round_comp _ _ roundPrecision
                  (affine_at_max mx mn mx lo hi Hm (Qeq_refl mx))).
    apply round_monotone, affine_monotone; assumption.
Qed.

Lemma scaled_cell_constant (roundPrecision : Z) (obj : list DataToolbox.MinMax)
    (rows : list (list Q)) (lo hi : Q) (j : nat) (mn mx v : Q) :
  obj !! j = Some {| DataToolbox.max := DataToolbox.Number mx;
                     DataToolbox.min := DataToolbox.Number mn |} ->
  column_bounds rows j mn mx ->
  constant rows j ->
  scaled_cell roundPrecision obj lo hi j v = DataToolbox.Throws min_max_error.
Proof.
  intros He Hb Hconst.
  pose proof (constant_bounds rows j mn mx Hb Hconst) as Hm.
  unfold scaled_cell. rewrite He.
  cbn [DataToolbox.min DataToolbox.max].
  unfold DataToolbox.featureScaling. cbn [DataToolbox.number_ge].
  replace (DataToolbox.js_ge mn mx) with true
    by (symmetry; apply js_ge_true; exact Hm).
  reflexivity.
Qed.

Lemma scaled_cell_range (roundPrecision : Z) (obj : list DataToolbox.MinMax)
    (rows : list (list Q)) (lo hi : Q) (j : nat) (mn mx v : Q) :
  obj !! j = Some {| DataToolbox.max := DataToolbox.Number mx;
                     DataToolbox.min := DataToolbox.Number mn |} ->
  column_bounds rows j mn mx ->
  varies rows j ->
  hi <= lo ->
  scaled_cell roundPrecision obj lo hi j v = DataToolbox.Throws range_error.
Proof.
  intros He Hb Hvar Hr.
  pose proof (varies_bounds rows j mn mx Hb Hvar) as Hm.
  unfold scaled_cell. rewrite He.
  cbn [DataToolbox.min DataToolbox.max].
  unfold DataToolbox.featureScaling. cbn [DataToolbox.number_ge].
  replace (DataToolbox.js_ge mn mx) with false
    by (symmetry; apply js_ge_false; exact Hm).
  replace (DataToolbox.js_ge lo hi) with true
    by (symmetry; apply js_ge_true; exact Hr).
  reflexivity.
Qed.

Lemma row_fits (first : list Q) (others : list (list Q)) (row : list Q)
    (k : nat) (v : Q) :
  Forall (fun row => (length row <= length first)%nat) others ->
  In row (first :: others) -> row !! k = Some v -> (k < length first)%nat.
Proof.
  intros Hall Hin Hv. apply lookup_lt_Some in Hv.
  destruct Hin as [<-|Hin]; [exact Hv|].
  rewrite List.Forall_forall in Hall. specialize (Hall row Hin). lia.
Qed.





Lemma scale_rows_empty (roundPrecision : Z) (mm : list DataToolbox.MinMax)
    (lo hi : Q) (values : list (list Q)) :
  Forall (fun row => (length row <= 0)%nat) values ->
  DataToolbox.scale_rows roundPrecision mm lo hi values
  = (DataToolbox.Returns tt, values).
Proof.
  induction 1 as [|row rest Hrow _ IH]; [reflexivity|].
  destruct row as [|v row]; [|cbn [length] in Hrow; lia].
  cbn [DataToolbox.scale_rows DataToolbox.scale_row]. rewrite IH. reflexivity.
Qed.

(** X15.  What [normalizeData] checks first, on a dataset whose rows are no
    longer than the first one.  The tests are made cell by cell, bounds
    before range.  So with an empty first row nothing is ever tested and the
    call returns whatever the range is; when the first column holds one
    number only (a dataset of a single row, say) the call throws "Min value
    should be smaller than Max value" whatever the range is; and when the
    first column varies and [minRange >= maxRange] it throws "Min range
    should be smaller than Max range".  In all three cases the dataset is
    left as it was. *)
Theorem X15_normalizeData_order_of_checks (roundPrecision : Z)
    (first : list Q) (others : list (list Q)) (minRange maxRange : Q) :
  Forall (fun row => (length row <= length first)%nat) others ->
  (first = [] ->
   DataToolbox.normalizeData roundPrecision (first :: others) minRange maxRange
   = (DataToolbox.Returns [], first :: others)) /\
  ((0 < length first)%nat -> constant (first :: others) 0 ->
   DataToolbox.normalizeData roundPrecision (first :: others) minRange maxRange
   = (DataToolbox.Throws min_max_error, first :: others)) /\
  (varies (first :: others) 0 -> maxRange <= minRange ->
   DataToolbox.normalizeData roundPrecision (first :: others) minRange maxRange
   = (DataToolbox.Throws range_error, first :: others)).
Proof.
  intros Hall.
  destruct (calcMinMaxValues_bounds first others Hall)
    as (obj & Hcalc & Hlen & Hcols).
  unfold DataToolbox.normalizeData. rewrite Hcalc.
  split; [|split].
  - intros ->. rewrite scale_rows_empty; [reflexivity|].
    constructor; [cbn [length]; lia|exact Hall].
  - intros Hpos Hconst.
    destruct first as [|v0 first]; [cbn [length] in Hpos; lia|].
    destruct (Hcols 0%nat Hpos) as (mn & mx & He & Hb).
    cbn [DataToolbox.scale_rows]. rewrite scale_row_unfold.
    rewrite (scaled_cell_constant roundPrecision obj _ minRange maxRange 0 mn mx
               v0 He Hb Hconst).
    reflexivity.
  - intros Hvar Hr.
    assert (Hpos : (0 < length first)%nat).
    { destruct Hvar as (r1 & _ & v1 & _ & H1 & _ & Hv1 & _).
      exact (row_fits first others r1 0 v1 Hall H1 Hv1). }
    destruct first as [|v0 first]; [cbn [length] in Hpos; lia|].
    destruct (Hcols 0%nat Hpos) as (mn & mx & He & Hb).
    cbn [DataToolbox.scale_rows]. rewrite scale_row_unfold.
    rewrite (scaled_cell_range roundPrecision obj _ minRange maxRange 0 mn mx
               v0 He Hb Hvar Hr).
    reflexivity.
Qed.

Lemma X15_normalizeData_order_of_checks_witness :
  ([1; 8] = [] ->
   DataToolbox.normalizeData 2 ([1; 8] :: [[3]; [0; 5]]) 1 1
   = (DataToolbox.Returns [], [1; 8] :: [[3]; [0; 5]])) /\
  ((0 < length [1; 8])%nat -> constant ([1; 8] :: [[3]; [0; 5]]) 0 ->
   DataToolbox.normalizeData 2 ([1; 8] :: [[3]; [0; 5]]) 1 1
   = (DataToolbox.Throws min_max_error, [1; 8] :: [[3]; [0; 5]])) /\
  (varies ([1; 8] :: [[3]; [0; 5]]) 0 -> 1 <= 1 ->
   DataToolbox.normalizeData 2 ([1; 8] :: [[3]; [0; 5]]) 1 1
   = (DataToolbox.Throws range_error, [1; 8] :: [[3]; [0; 5]])).
Proof.
  apply (X15_normalizeData_order_of_checks 2 [1; 8] [[3]; [0; 5]] 1 1).
  repeat constructor.
Defined.
